(** * MongoDB policy adapter: rule codec and load/save protocol

    A shallow embedding of [adapter.go].  Go strings are byte sequences, so
    they are modelled by [string] (a list of 8-bit [ascii] characters): the
    slice [key[:1]] is the first byte of [key].  Run-time panics are explicit
    results, the policy model is a map of maps of pointers into a heap of
    assertions, and the database collection is a value of the world state. *)

From Stdlib Require Import Ascii.
From stdpp Require Import base option list strings gmap fin_maps.

Open Scope string_scope.
Open Scope list_scope.
Open Scope nat_scope.

(** ** Go results: normal return or panic *)

Inductive panic : Type :=
  | SliceBoundsOutOfRange        (* s[:n] with n > len(s) *)
  | IndexOutOfRange              (* a[i] with i >= len(a) *)
  | NilDereference               (* field access through a nil pointer *)
  | PanicError (e : string).     (* panic(err) *)

Inductive result (A : Type) : Type :=
  | Ok (a : A)
  | Panic (p : panic).

Arguments Ok {A} a.
Arguments Panic {A} p.

#[export] Instance result_ret : MRet result := λ A a, Ok a.
#[export] Instance result_bind : MBind result := λ A B f r,
  match r with
  | Ok a => f a
  | Panic p => Panic p
  end.

(** ** Data *)

(** [type CasbinRule struct]: one stored record. *)
Record CasbinRule : Type := mkCasbinRule {
  PType : string;
  V0 : string;
  V1 : string;
  V2 : string;
  V3 : string;
  V4 : string;
  V5 : string
}.

#[export] Instance CasbinRule_eq_dec : EqDecision CasbinRule.
Proof. solve_decision. Defined.

(** The zero value [CasbinRule{}]. *)
Definition CasbinRule_zero : CasbinRule := mkCasbinRule "" "" "" "" "" "" "".

Definition set_PType (v : string) (r : CasbinRule) : CasbinRule :=
  mkCasbinRule v (V0 r) (V1 r) (V2 r) (V3 r) (V4 r) (V5 r).
Definition set_V0 (v : string) (r : CasbinRule) : CasbinRule :=
  mkCasbinRule (PType r) v (V1 r) (V2 r) (V3 r) (V4 r) (V5 r).
Definition set_V1 (v : string) (r : CasbinRule) : CasbinRule :=
  mkCasbinRule (PType r) (V0 r) v (V2 r) (V3 r) (V4 r) (V5 r).
Definition set_V2 (v : string) (r : CasbinRule) : CasbinRule :=
  mkCasbinRule (PType r) (V0 r) (V1 r) v (V3 r) (V4 r) (V5 r).
Definition set_V3 (v : string) (r : CasbinRule) : CasbinRule :=
  mkCasbinRule (PType r) (V0 r) (V1 r) (V2 r) v (V4 r) (V5 r).
Definition set_V4 (v : string) (r : CasbinRule) : CasbinRule :=
  mkCasbinRule (PType r) (V0 r) (V1 r) (V2 r) (V3 r) v (V5 r).
Definition set_V5 (v : string) (r : CasbinRule) : CasbinRule :=
  mkCasbinRule (PType r) (V0 r) (V1 r) (V2 r) (V3 r) (V4 r) v.

(** casbin's [model.Assertion], of which the adapter reads and writes the
    field [Policy [][]string] only. *)
Record Assertion : Type := mkAssertion { Policy : list (list string) }.

(** A [*Assertion]. *)
Inductive ptr : Type :=
  | nil_ptr
  | addr (l : positive).

#[export] Instance ptr_eq_dec : EqDecision ptr.
Proof. solve_decision. Defined.
#[export] Instance ptr_inhabited : Inhabited ptr := populate nil_ptr.

(** casbin's [model.AssertionMap = map[string]*Assertion] and
    [model.Model = map[string]AssertionMap]. *)
Abbreviation AssertionMap := (gmap string ptr).
Abbreviation Model := (gmap string (gmap string ptr)).
Abbreviation Heap := (gmap positive Assertion).

(** [type Adapter struct]: the collection handle is [None] for a nil
    [*mgo.Collection] and [Some name] once [open] has bound it. *)
Record Adapter : Type := mkAdapter {
  url : string;
  collection : option string
}.

(** The world a call runs in: the heap holding the assertions the model
    points to, and the documents of the adapter's collection ([None]: the
    namespace does not exist on the server). *)
Record World : Type := mkWorld {
  heap : Heap;
  store : option (list CasbinRule)
}.

Definition set_heap (h : Heap) (w : World) : World := mkWorld h (store w).
Definition set_store (s : option (list CasbinRule)) (w : World) : World :=
  mkWorld (heap w) s.

(** Documents currently held by the collection. *)
Definition records (w : World) : list CasbinRule := default [] (store w).

(** ** The monad of Go code: world passing with panics *)

Definition Go (A : Type) : Type := World → result (A * World).

#[export] Instance Go_ret : MRet Go := λ A a w, Ok (a, w).
#[export] Instance Go_bind : MBind Go := λ A B f m w,
  match m w with
  | Ok (a, w') => f a w'
  | Panic p => Panic p
  end.

Definition lift {A} (r : result A) : Go A := λ w,
  match r with
  | Ok a => Ok (a, w)
  | Panic p => Panic p
  end.

Definition go_panic {A} (p : panic) : Go A := λ _, Panic p.

(** ** Primitive Go operations *)

(** [s[:n]] on a string. *)
Definition slice_to (s : string) (n : nat) : result string :=
  if decide (n ≤ String.length s) then Ok (String.substring 0 n s)
  else Panic SliceBoundsOutOfRange.

(** [a[i]] on a slice. *)
Definition index (a : list string) (i : nat) : result string :=
  match a !! i with
  | Some x => Ok x
  | None => Panic IndexOutOfRange
  end.

(** [p.Policy] read through a pointer. *)
Definition load_Policy (p : ptr) : Go (list (list string)) := λ w,
  match p with
  | nil_ptr => Panic NilDereference
  | addr l =>
      match heap w !! l with
      | Some a => Ok (Policy a, w)
      | None => Panic NilDereference
      end
  end.

(** [p.Policy = v] written through a pointer. *)
Definition store_Policy (p : ptr) (v : list (list string)) : Go unit := λ w,
  match p with
  | nil_ptr => Panic NilDereference
  | addr l =>
      match heap w !! l with
      | Some _ => Ok (tt, set_heap (<[l := mkAssertion v]> (heap w)) w)
      | None => Panic NilDereference
      end
  end.

(** ** The codec *)

(** Lines 171-208 of [loadPolicyLine]: [tokens] when control reaches the
    label [LineEnd]. *)
Definition lineTokens (line : CasbinRule) : list string :=
  let tokens := [] in
  if decide (V0 line ≠ "") then
    let tokens := tokens ++ [V0 line] in
    if decide (V1 line ≠ "") then
      let tokens := tokens ++ [V1 line] in
      if decide (V2 line ≠ "") then
        let tokens := tokens ++ [V2 line] in
        if decide (V3 line ≠ "") then
          let tokens := tokens ++ [V3 line] in
          if decide (V4 line ≠ "") then
            let tokens := tokens ++ [V4 line] in
            if decide (V5 line ≠ "") then
              let tokens := tokens ++ [V5 line] in
              tokens
            else tokens
          else tokens
        else tokens
      else tokens
    else tokens
  else tokens.

(** [sec := key[:1]]. *)
Definition sectionOf (key : string) : result string := slice_to key 1.

(** [func loadPolicyLine(line CasbinRule, model model.Model)].  A missing
    key of a Go map reads as the zero value: the empty map for
    [model[sec]], the nil pointer for [model[sec][key]]. *)
Definition loadPolicyLine (line : CasbinRule) (model : Model) : Go unit :=
  let key := PType line in
  sec ← lift (sectionOf key);
  let tokens := lineTokens line in
  let ast := (model !!! sec) !!! key in
  policy ← load_Policy ast;
  store_Policy ast (policy ++ [tokens]).

(** [func savePolicyLine(ptype string, rule []string) CasbinRule]. *)
Definition savePolicyLine (ptype : string) (rule : list string) : result CasbinRule :=
  let line := CasbinRule_zero in
  let line := set_PType ptype line in
  line ← (if decide (0 < length rule)
          then v ← index rule 0; mret (set_V0 v line) else mret line);
  line ← (if decide (1 < length rule)
          then v ← index rule 1; mret (set_V1 v line) else mret line);
  line ← (if decide (2 < length rule)
          then v ← index rule 2; mret (set_V2 v line) else mret line);
  line ← (if decide (3 < length rule)
          then v ← index rule 3; mret (set_V3 v line) else mret line);
  line ← (if decide (4 < length rule)
          then v ← index rule 4; mret (set_V4 v line) else mret line);
  line ← (if decide (5 < length rule)
          then v ← index rule 5; mret (set_V5 v line) else mret line);
  mret line.

(** ** The database driver

    The adapter reaches the database through [mgo].  What the driver and the
    server do is not part of the adapter; a run of the adapter is taken
    against an environment that fixes it: the failures the driver reports,
    the order in which an unfiltered query enumerates the documents, and the
    order in which [range] visits the entries of a Go map. *)
Record Env : Type := mkEnv {
  (** error reported by [DropCollection] for a reason of the driver's own *)
  drop_fault : option string;
  (** [Insert] fails with the error after writing that many documents *)
  insert_fault : option (nat * string);
  (** order in which [Find(nil).Iter()] enumerates the documents *)
  cursor_order : list CasbinRule → list CasbinRule;
  (** the cursor breaks after that many documents; [Close] reports the error *)
  cursor_fault : option (nat * string);
  (** order in which the [n]-th [range] loop of a call visits the entries
      of an assertion map *)
  range_order : nat → AssertionMap → list (string * ptr)
}.

(** [c.DropCollection()]: the server answers "ns not found" for a namespace
    that does not exist. *)
Definition DropCollection (env : Env) (c : option string) : Go (option string) := λ w,
  match c with
  | None => Panic NilDereference
  | Some _ =>
      match drop_fault env with
      | Some e => Ok (Some e, w)
      | None =>
          match store w with
          | None => Ok (Some "ns not found", w)
          | Some _ => Ok (None, set_store None w)
          end
      end
  end.

(** [c.Insert(docs...)]. *)
Definition Insert (env : Env) (c : option string) (docs : list CasbinRule)
    : Go (option string) := λ w,
  match c with
  | None => Panic NilDereference
  | Some _ =>
      match insert_fault env with
      | Some (k, e) => Ok (Some e, set_store (Some (records w ++ take k docs)) w)
      | None => Ok (None, set_store (Some (records w ++ docs)) w)
      end
  end.

(** An [*mgo.Iter]: the documents still to deliver and the error [Close]
    will report. *)
Record Iter : Type := mkIter {
  pending : list CasbinRule;
  iter_err : option string
}.

(** [c.Find(nil).Iter()]. *)
Definition Find_Iter (env : Env) (c : option string) : Go Iter := λ w,
  match c with
  | None => Panic NilDereference
  | Some _ =>
      match cursor_fault env with
      | Some (k, e) => Ok (mkIter (take k (cursor_order env (records w))) (Some e), w)
      | None => Ok (mkIter (cursor_order env (records w)) None, w)
      end
  end.

(** ** Collection lifecycle *)

(** [func (a *Adapter) createTable()]. *)
Definition createTable (a : Adapter) : Go unit := mret tt.

(** [func (a *Adapter) dropTable()]. *)
Definition dropTable (env : Env) (a : Adapter) : Go unit :=
  if decide (collection a = None) then mret tt
  else
    err ← DropCollection env (collection a);
    match err with
    | Some e =>
        if decide (e ≠ "ns not found") then go_panic (PanicError e)
        else mret tt
    | None => mret tt
    end.

(** ** Load and save *)

(** The loop [for iter.Next(&line) { loadPolicyLine(line, model) }]: [Next]
    decodes each delivered document into [line]. *)
Fixpoint load_loop (docs : list CasbinRule) (model : Model) : Go unit :=
  match docs with
  | [] => mret tt
  | line :: docs' => loadPolicyLine line model;; load_loop docs' model
  end.

(** [func (a *Adapter) LoadPolicy(model model.Model) error]. *)
Definition LoadPolicy (env : Env) (a : Adapter) (model : Model) : Go (option string) :=
  iter ← Find_Iter env (collection a);
  load_loop (pending iter) model;;
  match iter_err iter with
  | Some err => mret (Some err)
  | None => mret None
  end.

(** The inner loop [for _, rule := range ast.Policy] of [SavePolicy],
    threading the slice [lines]. *)
Fixpoint save_rules (ptype : string) (policy : list (list string))
    (lines : list CasbinRule) : result (list CasbinRule) :=
  match policy with
  | [] => mret lines
  | rule :: policy' =>
      line ← savePolicyLine ptype rule;
      save_rules ptype policy' (lines ++ [line])
  end.

(** The outer loop [for ptype, ast := range model[sec]] over the entries in
    the order [range] visits them. *)
Fixpoint save_section (entries : list (string * ptr)) (lines : list CasbinRule)
    : Go (list CasbinRule) :=
  match entries with
  | [] => mret lines
  | (ptype, ast) :: entries' =>
      policy ← load_Policy ast;
      lines ← lift (save_rules ptype policy lines);
      save_section entries' lines
  end.

(** [func (a *Adapter) SavePolicy(model model.Model) error]. *)
Definition SavePolicy (env : Env) (a : Adapter) (model : Model) : Go (option string) :=
  dropTable env a;;
  createTable a;;
  let lines := [] in
  lines ← save_section (range_order env 0 (model !!! "p")) lines;
  lines ← save_section (range_order env 1 (model !!! "g")) lines;
  err ← Insert env (collection a) lines;
  mret err.

(** ** Mutation stubs *)

(** [func (a *Adapter) AddPolicy(sec string, ptype string, rule []string) error]. *)
Definition AddPolicy (a : Adapter) (sec ptype : string) (rule : list string)
    : Go (option string) :=
  mret (Some "not implemented").

(** [func (a *Adapter) RemovePolicy(sec string, ptype string, rule []string) error]. *)
Definition RemovePolicy (a : Adapter) (sec ptype : string) (rule : list string)
    : Go (option string) :=
  mret (Some "not implemented").

(** [func (a *Adapter) RemoveFilteredPolicy(sec string, ptype string,
    fieldIndex int, fieldValues ...string) error]. *)
Definition RemoveFilteredPolicy (a : Adapter) (sec ptype : string)
    (fieldIndex : Z) (fieldValues : list string) : Go (option string) :=
  mret (Some "not implemented").

(** ** Reference definitions for the codec, in the specification's words *)

(** The six positional fields of a record, in order. *)
Definition fields_of (line : CasbinRule) : list string :=
  [V0 line; V1 line; V2 line; V3 line; V4 line; V5 line].

(** Scanning in order and stopping at the first empty field. *)
Fixpoint scan_until_empty (vs : list string) : list string :=
  match vs with
  | [] => []
  | v :: vs' => if decide (v = "") then [] else v :: scan_until_empty vs'
  end.

(** The record whose slot [vN] holds field [N] of the rule when the rule has
    one, and is empty otherwise. *)
Definition record_of (ptype : string) (rule : list string) : CasbinRule :=
  mkCasbinRule ptype
    (default "" (rule !! 0)) (default "" (rule !! 1)) (default "" (rule !! 2))
    (default "" (rule !! 3)) (default "" (rule !! 4)) (default "" (rule !! 5)).

(** ** The rules a model holds *)

(** Rules reachable through a pointer (none through nil). *)
Definition policy_at (h : Heap) (p : ptr) : list (list string) :=
  match p with
  | nil_ptr => []
  | addr l => default [] (Policy <$> h !! l)
  end.

(** The [(ptype, fields)] pairs of one entry of an assertion map. *)
Definition entry_rules (h : Heap) (e : string * ptr) : list (string * list string) :=
  pair e.1 <$> policy_at h e.2.

(** The pairs of the sections ["p"] and ["g"]. *)
Definition saved_rules (h : Heap) (m : Model) : list (string * list string) :=
  (map_to_list (m !!! "p") ≫= entry_rules h)
  ++ (map_to_list (m !!! "g") ≫= entry_rules h).

(** Every entry of every section of a model. *)
Definition model_entries (m : Model) : list (string * ptr) :=
  map_to_list m ≫= (λ sa, map_to_list sa.2).

(** The pairs of the whole model. *)
Definition model_rules (h : Heap) (m : Model) : list (string * list string) :=
  model_entries m ≫= entry_rules h.

(** The record stored for a pair, and the pair a record decodes to. *)
Definition rule_record (kr : string * list string) : CasbinRule :=
  record_of kr.1 kr.2.
Definition record_rule (line : CasbinRule) : string * list string :=
  (PType line, lineTokens line).

(** The documents [SavePolicy] hands to [Insert]: one per rule of the
    sections ["p"] and ["g"], in the order [range] visits the entries. *)
Definition saved_lines (env : Env) (h : Heap) (m : Model) : list CasbinRule :=
  rule_record <$> ((range_order env 0 (m !!! "p") ≫= entry_rules h)
                   ++ (range_order env 1 (m !!! "g") ≫= entry_rules h)).

(** ** Well-formed models *)

#[export] Instance Assertion_eq_dec : EqDecision Assertion.
Proof. solve_decision. Defined.

(** A pointer through which [.Policy] can be read. *)
Definition live (h : Heap) (p : ptr) : Prop :=
  match p with
  | nil_ptr => False
  | addr l => is_Some (h !! l)
  end.

#[export] Instance live_dec h p : Decision (live h p).
Proof. destruct p; simpl; apply _. Defined.

(** A pointer to an assertion that holds no rule. *)
Definition points_to_empty (h : Heap) (p : ptr) : Prop :=
  match p with
  | nil_ptr => False
  | addr l => h !! l = Some (mkAssertion [])
  end.

#[export] Instance points_to_empty_dec h p : Decision (points_to_empty h p).
Proof. destruct p; simpl; apply _. Defined.

(** The model declares the ptype: the ptype is not empty and
    [model[ptype[:1]][ptype]] is not nil. *)
Definition declares (m : Model) (ptype : string) : Prop :=
  match ptype with
  | "" => False
  | String c _ => (m !!! String c "") !!! ptype ≠ nil_ptr
  end.

#[export] Instance declares_dec m ptype : Decision (declares m ptype).
Proof. destruct ptype; simpl; apply _. Defined.

(** The model accepts the record: [loadPolicyLine] finds an assertion to
    file it under. *)
Definition accepted (m : Model) (h : Heap) (line : CasbinRule) : Prop :=
  ∃ c rest l,
    PType line = String c rest ∧
    (m !!! String c "") !!! PType line = addr l ∧
    is_Some (h !! l).

(** A fresh empty model: its entries point to assertions of their own, none
    of which holds a rule. *)
Definition fresh_empty (h : Heap) (m : Model) : Prop :=
  NoDup (model_entries m).*2 ∧
  Forall (λ e, points_to_empty h e.2) (model_entries m).

#[export] Instance fresh_empty_dec h m : Decision (fresh_empty h m).
Proof. unfold fresh_empty. apply _. Defined.

(** A rule the six slots of a record can hold without loss. *)
Definition storable (kr : string * list string) : Prop :=
  length kr.2 ≤ 6 ∧ "" ∉ kr.2.

#[export] Instance storable_dec kr : Decision (storable kr).
Proof. unfold storable. apply _. Defined.

(** ** Sample data *)

Definition sample_adapter : Adapter := mkAdapter "mongodb://localhost:27017" (Some "casbin_rule").

(** The driver of a run without failures, enumerating in stored order. *)
Definition quiet_env : Env := mkEnv None None id None (λ _, map_to_list).

(** A populated model: one rule under [p], one under [g], and a section
    ["e"] of its own; the collection holds a record of an earlier save.  The
    assertions at 4 and 5 belong to [fresh_model], a model of the same shape
    without rules. *)
Definition policy_model : Model :=
  {[ "p" := {[ "p" := addr 1 ]};
     "g" := {[ "g" := addr 2 ]};
     "e" := {[ "e" := addr 3 ]} ]}.
Definition fresh_model : Model :=
  {[ "p" := {[ "p" := addr 4 ]}; "g" := {[ "g" := addr 5 ]} ]}.
Definition policy_world : World :=
  mkWorld
    {[ 1%positive := mkAssertion [["alice"; "data1"; "read"]];
       2%positive := mkAssertion [["alice"; "admin"]];
       3%positive := mkAssertion [["some(where (p.eft == allow))"]];
       4%positive := mkAssertion [];
       5%positive := mkAssertion [] ]}
    (Some [mkCasbinRule "p" "bob" "data2" "write" "" "" ""]).

(** The same with a rule of seven fields under [p]. *)
Definition long_rule_world : World :=
  mkWorld
    {[ 1%positive := mkAssertion [["f0"; "f1"; "f2"; "f3"; "f4"; "f5"; "f6"]];
       2%positive := mkAssertion [];
       3%positive := mkAssertion [];
       4%positive := mkAssertion [];
       5%positive := mkAssertion [] ]}
    None.

(** A model with the assertions [p] and [g], both empty. *)
Definition sample_model : Model :=
  {[ "p" := {[ "p" := addr 1 ]}; "g" := {[ "g" := addr 2 ]} ]}.
Definition sample_world : World :=
  mkWorld {[ 1%positive := mkAssertion []; 2%positive := mkAssertion [] ]} None.

(** ** Further notions: what a record holds, where a record goes *)

(** The first six fields of a rule, padded with empty strings: what the six
    slots of its record hold. *)
Definition padded (rule : list string) : list string :=
  take 6 (rule ++ replicate 6 "").

(** The pointer [loadPolicyLine] files a record through,
    [model[key[:1]][key]]; the empty ptype has none. *)
Definition target (m : Model) (line : CasbinRule) : ptr :=
  match PType line with
  | "" => nil_ptr
  | String c _ => (m !!! String c "") !!! PType line
  end.

(** The documents the cursor of [LoadPolicy] delivers before [Close]. *)
Definition delivered (env : Env) (w : World) : list CasbinRule :=
  match cursor_fault env with
  | Some (k, _) => take k (cursor_order env (records w))
  | None => cursor_order env (records w)
  end.

(** A record whose ptype begins with [p] or [g]: [loadPolicyLine] files it
    under one of the two sections [SavePolicy] reads. *)
Definition kept (line : CasbinRule) : Prop :=
  match PType line with
  | "" => False
  | String c _ => c = "p"%char ∨ c = "g"%char
  end.

#[export] Instance kept_dec line : Decision (kept line).
Proof. unfold kept. destruct (PType line); apply _. Defined.

(** The record that saving a decoded record gives back. *)
Definition normalized (line : CasbinRule) : CasbinRule :=
  rule_record (record_rule line).

(** ** Sample data for loading *)

(** A collection with three records and the empty assertions of
    [fresh_model]. *)
Definition stored_world : World :=
  mkWorld
    {[ 4%positive := mkAssertion []; 5%positive := mkAssertion [] ]}
    (Some [mkCasbinRule "p" "alice" "data1" "read" "" "" "";
           mkCasbinRule "g" "alice" "admin" "" "" "" "";
           mkCasbinRule "p" "bob" "data2" "write" "" "" ""]).

(** The world after [LoadPolicy] into [fresh_model]. *)
Definition loaded_world : World :=
  mkWorld
    {[ 4%positive := mkAssertion [["alice"; "data1"; "read"]; ["bob"; "data2"; "write"]];
       5%positive := mkAssertion [["alice"; "admin"]] ]}
    (store stored_world).

(** A driver whose cursor breaks after two records. *)
Definition broken_cursor_env : Env :=
  mkEnv None None id (Some (2, "cursor timeout")) (λ _, map_to_list).

(** A driver whose [Insert] fails after one document. *)
Definition broken_insert_env : Env :=
  mkEnv None (Some (1, "write failed")) id None (λ _, map_to_list).

(** A driver without failures whose [range] loops visit the maps in the
    opposite order. *)
Definition reversed_env : Env :=
  mkEnv None None id None (λ _ am, reverse (map_to_list am)).

(** A model whose assertion under ["p"] is nil. *)
Definition nil_model : Model :=
  {[ "p" := {[ "p" := nil_ptr ]}; "g" := {[ "g" := addr 2 ]} ]}.

(** A driver whose [DropCollection] fails. *)
Definition broken_drop_env : Env :=
  mkEnv (Some "not authorized") None id None (λ _, map_to_list).

(** ** Opening the adapter

    [NewAdapter], [open] and [createIndice] talk to the driver before any
    policy is read or written.  Their effect is the sequence of driver
    calls they make, kept in a log that survives a panic. *)

(** [mgo.DialInfo]: the adapter reads and writes [Database]; the addresses
    stand for the fields it passes on untouched. *)
Record DialInfo : Type := mkDialInfo {
  Addrs : list string;
  Database : string
}.

Definition set_Database (db : string) (dI : DialInfo) : DialInfo :=
  mkDialInfo (Addrs dI) db.

(** What the driver answers when the adapter is opened. *)
Record Dialer : Type := mkDialer {
  (** [mgo.ParseURL]: the parsed information or an error *)
  parse_url : string → DialInfo + string;
  (** [mgo.DialWithInfo]: the error, if the server cannot be reached *)
  dial_fault : DialInfo → option string;
  (** [EnsureIndex] on a collection for a key: the error, if any *)
  index_fault : string → list string → option string
}.

(** A call the driver received. *)
Inductive call : Type :=
  | Dialed (dI : DialInfo)
  | Ensured (coll : string) (key : list string)
  | Closed (dI : DialInfo).

(** Go code that logs its driver calls. *)
Definition Logged (A : Type) : Type := (list call * result A)%type.

#[export] Instance Logged_ret : MRet Logged := λ A a, ([], Ok a).
#[export] Instance Logged_bind : MBind Logged := λ A B f m,
  match m with
  | (log, Ok a) => let '(log', r) := f a in (log ++ log', r)
  | (log, Panic p) => (log, Panic p)
  end.

Definition logged_panic {A} (p : panic) : Logged A := ([], Panic p).

(** [mgo.DialWithInfo(dI)]: the session, named by what it was dialed with,
    or the error. *)
Definition DialWithInfo (d : Dialer) (dI : DialInfo) : Logged (DialInfo + string) :=
  ([Dialed dI],
   Ok match dial_fault d dI with
      | Some err => inr err
      | None => inl dI
      end).

(** [session.DB(db).C(name)]: the handle of the namespace [db.name]. *)
Definition DB_C (db name : string) : string := db +:+ "." +:+ name.

(** [c.EnsureIndex(mgo.Index{Key: key})]. *)
Definition EnsureIndex (d : Dialer) (c : option string) (key : list string)
    : Logged (option string) :=
  match c with
  | None => logged_panic NilDereference
  | Some coll => ([Ensured coll key], Ok (index_fault d coll key))
  end.

(** [if err != nil { panic(err) }]. *)
Definition panic_on (err : option string) : Logged unit :=
  match err with
  | Some e => logged_panic (PanicError e)
  | None => mret tt
  end.

(** [func (a *Adapter) createIndice()]. *)
Definition createIndice (d : Dialer) (a : Adapter) : Logged unit :=
  err ← EnsureIndex d (collection a) ["ptype"];
  panic_on err;;
  err ← EnsureIndex d (collection a) ["v0"];
  panic_on err;;
  err ← EnsureIndex d (collection a) ["v1"];
  panic_on err;;
  err ← EnsureIndex d (collection a) ["v2"];
  panic_on err;;
  err ← EnsureIndex d (collection a) ["v3"];
  panic_on err;;
  err ← EnsureIndex d (collection a) ["v4"];
  panic_on err;;
  err ← EnsureIndex d (collection a) ["v5"];
  panic_on err.

(** [func (a *Adapter) open()].  The record [Adapter] carries no session:
    the session stored in [a.session] is returned beside the adapter. *)
Definition open (d : Dialer) (a : Adapter) : Logged (DialInfo * Adapter) :=
  match parse_url d (url a) with
  | inr err => logged_panic (PanicError err)
  | inl dI =>
      let dI := if decide (Database dI = "") then set_Database "casbin" dI else dI in
      r ← DialWithInfo d dI;
      match r with
      | inr err => logged_panic (PanicError err)
      | inl session =>
          let collection := DB_C (Database dI) "casbin_rule" in
          let a := mkAdapter (url a) (Some collection) in
          createIndice d a;;
          mret (session, a)
      end
  end.

(** [func (a *Adapter) close()], on the session of the adapter. *)
Definition close (session : option DialInfo) : Logged unit :=
  match session with
  | None => logged_panic NilDereference
  | Some dI => ([Closed dI], Ok tt)
  end.

(** [func NewAdapter(url string) *Adapter]; registering the finalizer makes
    no driver call. *)
Definition NewAdapter (d : Dialer) (url : string) : Logged (DialInfo * Adapter) :=
  let a := mkAdapter "" None in
  let a := mkAdapter url (collection a) in
  sa ← open d a;
  mret sa.

(** The keys [createIndice] asks an index for, in order. *)
Definition index_keys : list (list string) :=
  [["ptype"]; ["v0"]; ["v1"]; ["v2"]; ["v3"]; ["v4"]; ["v5"]].

(** The database [open] selects for a parsed URL. *)
Definition database_of (dI : DialInfo) : string :=
  if decide (Database dI = "") then "casbin" else Database dI.

(** Asking for an index on each key of a list in turn and stopping at the
    first refusal. *)
Fixpoint ensure_all (d : Dialer) (coll : string) (keys : list (list string))
    : Logged unit :=
  match keys with
  | [] => ([], Ok tt)
  | key :: keys' =>
      match index_fault d coll key with
      | Some e => ([Ensured coll key], Panic (PanicError e))
      | None =>
          let '(log, r) := ensure_all d coll keys' in
          (Ensured coll key :: log, r)
      end
  end.

(** A driver that parses every URL to the host [localhost] without a
    database name, and never fails. *)
Definition sample_dialer : Dialer :=
  mkDialer (λ u, inl (mkDialInfo ["localhost:27017"] "")) (λ _, None) (λ _ _, None).

(** The same, refusing the index on [v2]. *)
Definition refusing_dialer : Dialer :=
  mkDialer (λ u, inl (mkDialInfo ["localhost:27017"] ""))
           (λ _, None)
           (λ _ key, if decide (key = ["v2"]) then Some "index refused" else None).

(** * Properties *)

(** ** Monad steps *)

Lemma go_bind_unfold {A B} (m : Go A) (f : A → Go B) (w : World) :
  (m ≫= f) w = match m w with Ok (a, w') => f a w' | Panic p => Panic p end.
Proof. reflexivity. Qed.

Lemma go_bind_ok {A B} (m : Go A) (f : A → Go B) w a w' :
  m w = Ok (a, w') → (m ≫= f) w = f a w'.
Proof. intros H. rewrite go_bind_unfold, H. reflexivity. Qed.

Lemma go_bind_inv {A B} (m : Go A) (f : A → Go B) w b w'' :
  (m ≫= f) w = Ok (b, w'') → ∃ a w', m w = Ok (a, w') ∧ f a w' = Ok (b, w'').
Proof.
  rewrite go_bind_unfold. destruct (m w) as [[a w']|p]; [|discriminate].
  intros H. by exists a, w'.
Qed.

Lemma lift_ok {A} (r : result A) a w : r = Ok a → lift r w = Ok (a, w).
Proof. by intros ->. Qed.

(** ** Encoding *)

Lemma index_lookup (a : list string) i x : a !! i = Some x → index a i = Ok x.
Proof. unfold index. by intros ->. Qed.

(** Every index expression of [savePolicyLine] is guarded by its length
    test: the function returns, and the record is the positional one. *)
Lemma savePolicyLine_ok ptype rule :
  savePolicyLine ptype rule = Ok (record_of ptype rule).
Proof.
  unfold savePolicyLine, record_of.
  destruct rule as [|f0 [|f1 [|f2 [|f3 [|f4 [|f5 r]]]]]];
    repeat (case_decide; simpl in *; try lia); reflexivity.
Qed.

Lemma record_of_take ptype rule :
  record_of ptype (take 6 rule) = record_of ptype rule.
Proof.
  unfold record_of.
  by destruct rule as [|f0 [|f1 [|f2 [|f3 [|f4 [|f5 r]]]]]].
Qed.

Lemma fields_of_record_of ptype rule i :
  i < 6 → fields_of (record_of ptype rule) !! i = Some (default "" (rule !! i)).
Proof.
  intros Hi. unfold fields_of, record_of; simpl.
  do 6 (destruct i as [|i]; [reflexivity|]). lia.
Qed.

(** ** Decoding *)

Lemma lineTokens_scan line : lineTokens line = scan_until_empty (fields_of line).
Proof.
  unfold lineTokens, fields_of; simpl.
  repeat (case_decide; simpl; try congruence).
Qed.

Lemma scan_until_empty_length vs : length (scan_until_empty vs) ≤ length vs.
Proof. induction vs as [|v vs IH]; simpl; [lia|]. case_decide; simpl; lia. Qed.

Lemma scan_until_empty_nonempty vs : "" ∉ scan_until_empty vs.
Proof.
  induction vs as [|v vs IH]; simpl; [apply not_elem_of_nil|].
  case_decide; [apply not_elem_of_nil|].
  apply not_elem_of_cons. split; [congruence|done].
Qed.

Lemma scan_until_empty_stop vs rest :
  "" ∉ vs → scan_until_empty (vs ++ "" :: rest) = vs.
Proof.
  induction vs as [|v vs IH]; simpl; intros H.
  - try case_decide; done.
  - apply not_elem_of_cons in H as [Hv H].
    case_decide; [congruence|]. by rewrite IH.
Qed.

Lemma scan_until_empty_all vs : "" ∉ vs → scan_until_empty vs = vs.
Proof.
  induction vs as [|v vs IH]; simpl; intros H; [done|].
  apply not_elem_of_cons in H as [Hv H].
  case_decide; [congruence|]. by rewrite IH.
Qed.

Lemma lineTokens_length line : length (lineTokens line) ≤ 6.
Proof. rewrite lineTokens_scan. apply (scan_until_empty_length (fields_of line)). Qed.

Lemma lineTokens_nonempty line : "" ∉ lineTokens line.
Proof. rewrite lineTokens_scan. apply scan_until_empty_nonempty. Qed.

(** Decoding undoes encoding on a rule of at most six non-empty fields. *)
Lemma lineTokens_record_of ptype fields :
  length fields ≤ 6 → "" ∉ fields → lineTokens (record_of ptype fields) = fields.
Proof.
  intros Hlen Hne. rewrite lineTokens_scan.
  destruct fields as [|f0 [|f1 [|f2 [|f3 [|f4 [|f5 [|f6 r]]]]]]];
    simpl in Hlen; try lia;
    rewrite ?not_elem_of_cons in Hne; destruct_and?;
    unfold fields_of, record_of; simpl;
    repeat (case_decide; try congruence); done.
Qed.

Lemma sectionOf_cons c rest : sectionOf (String c rest) = Ok (String c "").
Proof.
  unfold sectionOf, slice_to. case_decide; simpl in *; [|lia].
  by destruct rest.
Qed.

Lemma sectionOf_empty : sectionOf "" = Panic SliceBoundsOutOfRange.
Proof. reflexivity. Qed.

(** The heap after [loadPolicyLine] has filed [tokens] through [l]. *)
Definition filed (l : positive) (a : Assertion) (tokens : list string) (w : World) : World :=
  set_heap (<[l := mkAssertion (Policy a ++ [tokens])]> (heap w)) w.

Lemma loadPolicyLine_ok line (m : Model) w c rest l a :
  PType line = String c rest →
  (m !!! String c "") !!! PType line = addr l →
  heap w !! l = Some a →
  loadPolicyLine line m w = Ok (tt, filed l a (lineTokens line) w).
Proof.
  intros Hp Hs Hh. unfold loadPolicyLine.
  rewrite (go_bind_ok _ _ w (String c "") w)
    by (apply lift_ok; rewrite Hp; apply sectionOf_cons).
  simpl. rewrite Hs.
  rewrite (go_bind_ok _ _ w (Policy a) w) by (unfold load_Policy; by rewrite Hh).
  unfold store_Policy. by rewrite Hh.
Qed.

Lemma loadPolicyLine_inv line (m : Model) w u w' :
  loadPolicyLine line m w = Ok (u, w') →
  ∃ c rest l a,
    PType line = String c rest ∧
    (m !!! String c "") !!! PType line = addr l ∧
    heap w !! l = Some a ∧
    w' = filed l a (lineTokens line) w.
Proof.
  intros H. destruct (PType line) as [|c rest] eqn:Hp.
  - unfold loadPolicyLine in H. rewrite Hp in H. discriminate.
  - destruct ((m !!! String c "") !!! String c rest) as [|l] eqn:Hs.
    + unfold loadPolicyLine in H. rewrite Hp, go_bind_unfold in H.
      rewrite (lift_ok _ (String c "")) in H by apply sectionOf_cons.
      simpl in H. rewrite Hs in H. discriminate.
    + destruct (heap w !! l) as [a|] eqn:Hh.
      * exists c, rest, l, a. split_and!; try done.
        rewrite <- Hp in Hs.
        rewrite (loadPolicyLine_ok line m w c rest l a Hp Hs Hh) in H.
        congruence.
      * unfold loadPolicyLine in H. rewrite Hp, go_bind_unfold in H.
        rewrite (lift_ok _ (String c "")) in H by apply sectionOf_cons.
        simpl in H. rewrite Hs, go_bind_unfold in H. unfold load_Policy in H.
        rewrite Hh in H. discriminate.
Qed.

(** ** The codec claims *)

(** C1 (as amended).  For every non-empty ptype [String c rest] whose slot
    [model[c][ptype]] holds an assertion, and every rule of at most six
    fields none of which is empty, encoding returns a record whose decoding
    files exactly the same fields, under the section made of the first
    character of the ptype and under the same ptype. *)
Theorem savePolicyLine_loadPolicyLine_roundtrip
    c rest fields (m : Model) w l a :
  length fields ≤ 6 →
  "" ∉ fields →
  (m !!! String c "") !!! String c rest = addr l →
  heap w !! l = Some a →
  ∃ line,
    savePolicyLine (String c rest) fields = Ok line ∧
    sectionOf (PType line) = Ok (String c "") ∧
    PType line = String c rest ∧
    lineTokens line = fields ∧
    loadPolicyLine line m w = Ok (tt, filed l a fields w).
Proof.
  intros Hlen Hne Hs Hh. exists (record_of (String c rest) fields).
  split_and!.
  - apply savePolicyLine_ok.
  - apply sectionOf_cons.
  - reflexivity.
  - by apply lineTokens_record_of.
  - rewrite <- (lineTokens_record_of (String c rest) fields Hlen Hne) at 2.
    by apply (loadPolicyLine_ok _ m w c rest l a).
Qed.

Lemma savePolicyLine_loadPolicyLine_roundtrip_sample :
  ∃ line,
    savePolicyLine "p" ["alice"; "data1"; "read"] = Ok line ∧
    sectionOf (PType line) = Ok "p" ∧
    PType line = "p" ∧
    lineTokens line = ["alice"; "data1"; "read"] ∧
    loadPolicyLine line sample_model sample_world
    = Ok (tt, filed 1 (mkAssertion []) ["alice"; "data1"; "read"] sample_world).
Proof.
  apply (savePolicyLine_loadPolicyLine_roundtrip
           "p"%char "" ["alice"; "data1"; "read"] sample_model sample_world
           1%positive (mkAssertion [])).
  - simpl. lia.
  - apply (bool_decide_unpack _). vm_compute. exact I.
  - vm_compute. reflexivity.
  - vm_compute. reflexivity.
Defined.

(** C1 (as stated) fails on the empty ptype: the rule [["alice"]] is within
    the stated bounds, its record is produced, and decoding that record
    panics on [key[:1]] whatever the model. *)
Lemma roundtrip_empty_ptype_panics :
  length ["alice"] ≤ 6 ∧ ("" ∉ ["alice"]) ∧
  savePolicyLine "" ["alice"] = Ok (mkCasbinRule "" "alice" "" "" "" "" "") ∧
  ∀ (m : Model) w,
    loadPolicyLine (mkCasbinRule "" "alice" "" "" "" "" "") m w
    = Panic SliceBoundsOutOfRange.
Proof.
  split_and!.
  - simpl. lia.
  - apply (bool_decide_unpack _). vm_compute. exact I.
  - reflexivity.
  - reflexivity.
Qed.

(** C2.  For every record, decoding scans [v0] to [v5] in order and stops
    at the first empty field: the token list is that scan, it is the list
    [loadPolicyLine] files whenever it returns, it is filed whenever the
    model holds an assertion for the ptype, and a record with
    [v0 = "alice"], [v1 = ""], [v2 = "read"] yields [["alice"]]. *)
Theorem loadPolicyLine_stops_at_first_empty :
  (∀ line,
     lineTokens line
     = scan_until_empty [V0 line; V1 line; V2 line; V3 line; V4 line; V5 line]) ∧
  (∀ line (m : Model) w w',
     loadPolicyLine line m w = Ok (tt, w') →
     ∃ l a,
       heap w !! l = Some a ∧
       w' = filed l a (scan_until_empty (fields_of line)) w) ∧
  (∀ line (m : Model) w c rest l a,
     PType line = String c rest →
     (m !!! String c "") !!! PType line = addr l →
     heap w !! l = Some a →
     loadPolicyLine line m w
     = Ok (tt, filed l a (scan_until_empty (fields_of line)) w)) ∧
  (∀ ptype v3 v4 v5,
     lineTokens (mkCasbinRule ptype "alice" "" "read" v3 v4 v5) = ["alice"]) ∧
  loadPolicyLine (mkCasbinRule "p" "alice" "" "read" "" "" "")
    sample_model sample_world
  = Ok (tt, filed 1 (mkAssertion []) ["alice"] sample_world).
Proof.
  split_and!.
  - apply lineTokens_scan.
  - intros line m w w' H.
    apply loadPolicyLine_inv in H as (c & rest & l & a & _ & _ & Hh & ->).
    exists l, a. by rewrite lineTokens_scan.
  - intros line m w c rest l a Hp Hs Hh.
    rewrite (loadPolicyLine_ok line m w c rest l a Hp Hs Hh).
    by rewrite lineTokens_scan.
  - reflexivity.
  - vm_compute. reflexivity.
Qed.

(** C4 (as amended).  Encoding returns for every ptype and every rule, of
    any length.  Decoding returns exactly when the ptype of the record is
    not empty and the model holds an assertion at [model[ptype[:1]][ptype]];
    otherwise it panics. *)
Theorem codec_totality :
  (∀ ptype rule, ∃ line, savePolicyLine ptype rule = Ok line) ∧
  (∀ line (m : Model) w,
     (∃ w', loadPolicyLine line m w = Ok (tt, w')) ↔
     (∃ c rest l,
        PType line = String c rest ∧
        (m !!! String c "") !!! PType line = addr l ∧
        is_Some (heap w !! l))) ∧
  (∀ line (m : Model) w,
     PType line = "" → loadPolicyLine line m w = Panic SliceBoundsOutOfRange).
Proof.
  split_and!.
  - intros ptype rule. eexists. apply savePolicyLine_ok.
  - intros line m w. split.
    + intros [w' H]. apply loadPolicyLine_inv in H as (c & rest & l & a & ? & ? & ? & _).
      exists c, rest, l. eauto.
    + intros (c & rest & l & Hp & Hs & [a Hh]).
      eexists. by apply (loadPolicyLine_ok line m w c rest l a).
  - intros line m w Hp. unfold loadPolicyLine. by rewrite Hp.
Qed.

(** C4 (as stated) fails: a record with the empty ptype makes the slice
    [key[:1]] panic, and a record whose ptype the model does not declare
    makes the access to [.Policy] panic. *)
Lemma loadPolicyLine_panics :
  loadPolicyLine (mkCasbinRule "" "alice" "data1" "read" "" "" "")
    sample_model sample_world = Panic SliceBoundsOutOfRange ∧
  loadPolicyLine (mkCasbinRule "p2" "alice" "data1" "read" "" "" "")
    sample_model sample_world = Panic NilDereference.
Proof. split; vm_compute; reflexivity. Qed.

Lemma fields_of_record_of_long ptype rule :
  6 ≤ length rule → fields_of (record_of ptype rule) = take 6 rule.
Proof.
  intros Hlen.
  destruct rule as [|f0 [|f1 [|f2 [|f3 [|f4 [|f5 r]]]]]]; simpl in Hlen; try lia.
  reflexivity.
Qed.

(** C5 (as amended).  For every ptype and every rule of more than six
    fields, encoding returns the record that holds the fields at indices 0
    to 5 in its six slots and nothing of the rest.  When none of these six
    fields is empty, decoding that record gives exactly these six fields,
    and files them whenever the model holds an assertion for the ptype. *)
Theorem savePolicyLine_drops_beyond_six ptype rule :
  6 < length rule →
  ∃ line,
    savePolicyLine ptype rule = Ok line ∧
    PType line = ptype ∧
    fields_of line = take 6 rule ∧
    line = record_of ptype (take 6 rule) ∧
    (∀ i, i < 6 → fields_of line !! i = rule !! i) ∧
    ("" ∉ take 6 rule →
     lineTokens line = take 6 rule ∧
     length (lineTokens line) = 6 ∧
     ∀ c rest (m : Model) w l a,
       ptype = String c rest →
       (m !!! String c "") !!! ptype = addr l →
       heap w !! l = Some a →
       loadPolicyLine line m w = Ok (tt, filed l a (take 6 rule) w)).
Proof.
  intros Hlen. exists (record_of ptype rule).
  assert (Hfields : fields_of (record_of ptype rule) = take 6 rule)
    by (apply fields_of_record_of_long; lia).
  split_and!.
  - apply savePolicyLine_ok.
  - reflexivity.
  - exact Hfields.
  - symmetry. apply record_of_take.
  - intros i Hi. rewrite Hfields. by apply lookup_take_lt.
  - intros Hne.
    assert (Htok : lineTokens (record_of ptype rule) = take 6 rule).
    { rewrite lineTokens_scan, Hfields. by apply scan_until_empty_all. }
    split_and!.
    + exact Htok.
    + rewrite Htok, length_take. lia.
    + intros c rest m w l a -> Hs Hh. rewrite <- Htok.
      by apply (loadPolicyLine_ok _ m w c rest l a).
Qed.

Lemma savePolicyLine_drops_beyond_six_sample :
  (∃ line,
     savePolicyLine "p" ["f0"; ""; "f2"; "f3"; "f4"; "f5"; "f6"; "f7"] = Ok line ∧
     PType line = "p" ∧
     fields_of line = ["f0"; ""; "f2"; "f3"; "f4"; "f5"]) ∧
  (∃ line,
     savePolicyLine "p" ["f0"; "f1"; "f2"; "f3"; "f4"; "f5"; "f6"; "f7"] = Ok line ∧
     fields_of line = ["f0"; "f1"; "f2"; "f3"; "f4"; "f5"] ∧
     lineTokens line = ["f0"; "f1"; "f2"; "f3"; "f4"; "f5"] ∧
     length (lineTokens line) = 6 ∧
     loadPolicyLine line sample_model sample_world
     = Ok (tt, filed 1 (mkAssertion [])
                 ["f0"; "f1"; "f2"; "f3"; "f4"; "f5"] sample_world)).
Proof.
  split.
  - destruct (savePolicyLine_drops_beyond_six
                "p" ["f0"; ""; "f2"; "f3"; "f4"; "f5"; "f6"; "f7"])
      as (line & Hsave & Hptype & Hfields & _); [simpl; lia|].
    exists line. by split_and!.
  - destruct (savePolicyLine_drops_beyond_six
                "p" ["f0"; "f1"; "f2"; "f3"; "f4"; "f5"; "f6"; "f7"])
      as (line & Hsave & _ & Hfields & _ & _ & Hdecode); [simpl; lia|].
    destruct Hdecode as (Htokens & Hsix & Hload).
    { apply (bool_decide_unpack _). vm_compute. exact I. }
    exists line. split_and!; try done.
    apply (Hload "p"%char "" sample_model sample_world 1%positive (mkAssertion [])).
    + reflexivity.
    + vm_compute. reflexivity.
    + vm_compute. reflexivity.
Defined.

(** C5 (as stated) fails when one of the first six fields is empty: this
    rule has seven fields and decoding its record files one field. *)
Lemma long_rule_with_empty_field_decodes_short :
  6 < length ["alice"; ""; "read"; "f3"; "f4"; "f5"; "f6"] ∧
  savePolicyLine "p" ["alice"; ""; "read"; "f3"; "f4"; "f5"; "f6"]
  = Ok (mkCasbinRule "p" "alice" "" "read" "f3" "f4" "f5") ∧
  lineTokens (mkCasbinRule "p" "alice" "" "read" "f3" "f4" "f5") = ["alice"] ∧
  loadPolicyLine (mkCasbinRule "p" "alice" "" "read" "f3" "f4" "f5")
    sample_model sample_world
  = Ok (tt, filed 1 (mkAssertion []) ["alice"] sample_world).
Proof.
  split_and!.
  - simpl. lia.
  - reflexivity.
  - reflexivity.
  - vm_compute. reflexivity.
Qed.

(** C6.  The section key is the first character of the ptype: the slice
    [key[:1]] of a non-empty ptype is its first character (["p"] for ["p"],
    ["g"] for ["g2"]), and whenever [loadPolicyLine] files a rule it files
    it through [model[sec][ptype]] for that one-character [sec]. *)
Theorem sectionOf_first_character :
  (∀ c rest, sectionOf (String c rest) = Ok (String c "")) ∧
  sectionOf "p" = Ok "p" ∧
  sectionOf "g2" = Ok "g" ∧
  (∀ line (m : Model) w w',
     loadPolicyLine line m w = Ok (tt, w') →
     ∃ c rest l a,
       PType line = String c rest ∧
       (m !!! String c "") !!! PType line = addr l ∧
       heap w !! l = Some a ∧
       w' = filed l a (lineTokens line) w).
Proof.
  split_and!.
  - apply sectionOf_cons.
  - reflexivity.
  - reflexivity.
  - intros line m w w'. apply loadPolicyLine_inv.
Qed.

(** C10.  Whatever the record holds, the field list that [loadPolicyLine]
    appends to the model has at most six elements, none of them empty. *)
Theorem loadPolicyLine_appends_bounded_nonempty
    line (m : Model) w w' :
  loadPolicyLine line m w = Ok (tt, w') →
  ∃ l a tokens,
    heap w !! l = Some a ∧
    heap w' = <[l := mkAssertion (Policy a ++ [tokens])]> (heap w) ∧
    length tokens ≤ 6 ∧
    "" ∉ tokens.
Proof.
  intros H. apply loadPolicyLine_inv in H as (c & rest & l & a & _ & _ & Hh & ->).
  exists l, a, (lineTokens line). split_and!.
  - exact Hh.
  - reflexivity.
  - apply lineTokens_length.
  - apply lineTokens_nonempty.
Qed.

Lemma loadPolicyLine_appends_bounded_nonempty_sample :
  ∃ l a tokens,
    heap sample_world !! l = Some a ∧
    heap (filed 1 (mkAssertion []) ["alice"; "data1"] sample_world)
    = <[l := mkAssertion (Policy a ++ [tokens])]> (heap sample_world) ∧
    length tokens ≤ 6 ∧
    "" ∉ tokens.
Proof.
  apply (loadPolicyLine_appends_bounded_nonempty
           (mkCasbinRule "p" "alice" "data1" "" "read" "" "")
           sample_model sample_world).
  vm_compute. reflexivity.
Defined.

(** ** Mutation stubs and collection lifecycle *)

(** C8.  Each of [AddPolicy], [RemovePolicy] and [RemoveFilteredPolicy]
    returns the error "not implemented" for all arguments and leaves the
    world, hence the stored records, as it found them. *)
Theorem mutation_stubs_not_implemented
    a sec ptype rule (fieldIndex : Z) fieldValues w :
  AddPolicy a sec ptype rule w = Ok (Some "not implemented", w) ∧
  RemovePolicy a sec ptype rule w = Ok (Some "not implemented", w) ∧
  RemoveFilteredPolicy a sec ptype fieldIndex fieldValues w
  = Ok (Some "not implemented", w).
Proof. split_and!; reflexivity. Qed.

Lemma dropTable_unfold env a w :
  dropTable env a w
  = if decide (collection a = None) then Ok (tt, w)
    else match DropCollection env (collection a) w with
         | Ok (Some e, w') =>
             if decide (e ≠ "ns not found") then Panic (PanicError e)
             else Ok (tt, w')
         | Ok (None, w') => Ok (tt, w')
         | Panic p => Panic p
         end.
Proof.
  unfold dropTable. case_decide; [reflexivity|].
  rewrite go_bind_unfold.
  destruct (DropCollection env (collection a) w) as [[[e|] w']|p]; try reflexivity.
  by case_decide.
Qed.

(** C9.  [dropTable] returns normally when the collection does not exist,
    be it that the server has no such namespace or that the adapter holds
    no collection handle; an existing collection is emptied; and every
    other error of the drop makes [dropTable] panic with that error. *)
Theorem dropTable_tolerates_missing_collection :
  (∀ env a w,
     drop_fault env = None → store w = None → dropTable env a w = Ok (tt, w)) ∧
  (∀ env a w, collection a = None → dropTable env a w = Ok (tt, w)) ∧
  (∀ env a w docs,
     collection a ≠ None → drop_fault env = None → store w = Some docs →
     dropTable env a w = Ok (tt, set_store None w)) ∧
  (∀ env a w e w',
     collection a ≠ None →
     DropCollection env (collection a) w = Ok (Some e, w') →
     e ≠ "ns not found" →
     dropTable env a w = Panic (PanicError e)).
Proof.
  split_and!.
  - intros env a w Hf Hs. rewrite dropTable_unfold.
    case_decide; [reflexivity|].
    unfold DropCollection. destruct (collection a); [|done].
    rewrite Hf, Hs. by case_decide.
  - intros env a w Hc. rewrite dropTable_unfold. by case_decide.
  - intros env a w docs Hc Hf Hs. rewrite dropTable_unfold.
    case_decide; [done|].
    unfold DropCollection. destruct (collection a); [|done].
    by rewrite Hf, Hs.
  - intros env a w e w' Hc Hd He. rewrite dropTable_unfold.
    case_decide; [done|]. rewrite Hd. by case_decide.
Qed.

(** ** Saving *)

Lemma save_rules_ok ptype policy lines :
  save_rules ptype policy lines = Ok (lines ++ (record_of ptype <$> policy)).
Proof.
  revert lines. induction policy as [|rule policy IH]; intros lines; simpl.
  - by rewrite app_nil_r.
  - rewrite savePolicyLine_ok. simpl. rewrite IH.
    by rewrite <- app_assoc.
Qed.

Lemma entry_rules_records h ptype p :
  rule_record <$> entry_rules h (ptype, p) = record_of ptype <$> policy_at h p.
Proof.
  unfold entry_rules. simpl. rewrite <- list_fmap_compose. reflexivity.
Qed.

Lemma save_section_ok entries lines w :
  Forall (λ e, live (heap w) e.2) entries →
  save_section entries lines w
  = Ok (lines ++ (rule_record <$> (entries ≫= entry_rules (heap w))), w).
Proof.
  revert lines. induction entries as [|[ptype p] entries IH]; intros lines Hlive.
  - simpl. by rewrite app_nil_r.
  - apply Forall_cons in Hlive as [Hp Hlive]. simpl in Hp.
    destruct p as [|l]; [done|]. destruct Hp as [a Ha].
    simpl. rewrite (go_bind_ok _ _ w (Policy a) w)
      by (unfold load_Policy; by rewrite Ha).
    rewrite (go_bind_ok _ _ w (lines ++ (record_of ptype <$> Policy a)) w)
      by (apply lift_ok, save_rules_ok).
    rewrite IH by done.
    rewrite fmap_app, entry_rules_records. simpl. rewrite Ha. simpl.
    by rewrite <- app_assoc.
Qed.

Lemma dropTable_ok env a w :
  collection a ≠ None → drop_fault env = None →
  ∃ w1, dropTable env a w = Ok (tt, w1) ∧ heap w1 = heap w ∧ store w1 = None.
Proof.
  intros Hc Hf. rewrite dropTable_unfold. case_decide; [done|].
  unfold DropCollection. destruct (collection a); [|done]. rewrite Hf.
  destruct (store w) eqn:Hs.
  - eexists. split; [reflexivity|]. done.
  - case_decide; [done|]. eexists. split; [reflexivity|]. done.
Qed.

Lemma map_Forall_entries (P : ptr → Prop) (am : gmap string ptr) entries :
  entries ≡ₚ map_to_list am →
  map_Forall (λ _ p, P p) am →
  Forall (λ e : string * ptr, P e.2) entries.
Proof.
  intros Hperm HP. rewrite Hperm. apply Forall_forall.
  intros [k p] Hin. apply elem_of_map_to_list in Hin. by apply (HP k p).
Qed.

Section save.
Context (env : Env) (a : Adapter).
Hypothesis bound : collection a ≠ None.
Hypothesis no_drop_fault : drop_fault env = None.
Hypothesis no_insert_fault : insert_fault env = None.
Hypothesis range_perm : ∀ n am, range_order env n am ≡ₚ map_to_list am.

Lemma SavePolicy_ok (m : Model) w :
  map_Forall (λ _ p, live (heap w) p) (m !!! "p") →
  map_Forall (λ _ p, live (heap w) p) (m !!! "g") →
  SavePolicy env a m w
  = Ok (None, mkWorld (heap w) (Some (saved_lines env (heap w) m))).
Proof.
  intros Hp Hg. unfold SavePolicy.
  destruct (dropTable_ok env a w bound no_drop_fault) as (w1 & Hd & Hh & Hs).
  assert (Hp1 : Forall (λ e, live (heap w1) e.2) (range_order env 0 (m !!! "p"))).
  { rewrite Hh. by apply (map_Forall_entries _ (m !!! "p")). }
  assert (Hg1 : Forall (λ e, live (heap w1) e.2) (range_order env 1 (m !!! "g"))).
  { rewrite Hh. by apply (map_Forall_entries _ (m !!! "g")). }
  rewrite (go_bind_ok _ _ w tt w1 Hd).
  rewrite (go_bind_ok _ _ w1 tt w1) by reflexivity.
  rewrite (go_bind_ok _ _ w1 _ w1 (save_section_ok _ [] w1 Hp1)).
  rewrite (go_bind_ok _ _ w1 _ w1 (save_section_ok _ _ w1 Hg1)).
  rewrite go_bind_unfold. unfold Insert.
  destruct (collection a); [|done]. rewrite no_insert_fault.
  simpl. unfold records, set_store, saved_lines. rewrite Hs, Hh. simpl.
  by rewrite fmap_app.
Qed.

Lemma saved_lines_perm h (m : Model) :
  saved_lines env h m ≡ₚ rule_record <$> saved_rules h m.
Proof.
  unfold saved_lines, saved_rules. by rewrite !range_perm.
Qed.

(** C7.  Against a driver that reports no failure, [SavePolicy] leaves in
    the collection exactly the documents it builds, whatever the collection
    held before: one record per rule of every ptype under ["p"], then one per
    rule of every ptype under ["g"].  No other section is read: two models
    that agree on ["p"] and ["g"] are saved alike. *)
Theorem SavePolicy_replaces_with_p_and_g (m : Model) w :
  map_Forall (λ _ p, live (heap w) p) (m !!! "p") →
  map_Forall (λ _ p, live (heap w) p) (m !!! "g") →
  ∃ lines,
    SavePolicy env a m w = Ok (None, mkWorld (heap w) (Some lines)) ∧
    lines = saved_lines env (heap w) m ∧
    lines ≡ₚ rule_record <$> saved_rules (heap w) m ∧
    length lines = length (saved_rules (heap w) m) ∧
    ∀ m' : Model,
      m' !!! "p" = m !!! "p" → m' !!! "g" = m !!! "g" →
      SavePolicy env a m' w = SavePolicy env a m w.
Proof.
  intros Hp Hg. exists (saved_lines env (heap w) m). split_and!.
  - by apply SavePolicy_ok.
  - reflexivity.
  - apply saved_lines_perm.
  - by rewrite saved_lines_perm, length_fmap.
  - intros m' Hp' Hg'. unfold SavePolicy. by rewrite Hp', Hg'.
Qed.

End save.

Lemma SavePolicy_replaces_with_p_and_g_sample :
  ∃ lines,
    SavePolicy quiet_env sample_adapter policy_model policy_world
    = Ok (None, mkWorld (heap policy_world) (Some lines)) ∧
    lines = saved_lines quiet_env (heap policy_world) policy_model ∧
    lines ≡ₚ rule_record <$> saved_rules (heap policy_world) policy_model ∧
    length lines = length (saved_rules (heap policy_world) policy_model) ∧
    ∀ m' : Model,
      m' !!! "p" = policy_model !!! "p" → m' !!! "g" = policy_model !!! "g" →
      SavePolicy quiet_env sample_adapter m' policy_world
      = SavePolicy quiet_env sample_adapter policy_model policy_world.
Proof.
  apply (SavePolicy_replaces_with_p_and_g quiet_env sample_adapter).
  - discriminate.
  - reflexivity.
  - reflexivity.
  - intros n am. reflexivity.
  - apply (bool_decide_unpack _). vm_compute. exact I.
  - apply (bool_decide_unpack _). vm_compute. exact I.
Defined.


(** ** Loading *)

Lemma entry_rules_insert_ne (h : Heap) l a' (e : string * ptr) :
  e.2 ≠ addr l → entry_rules (<[l := a']> h) e = entry_rules h e.
Proof.
  intros Hne. unfold entry_rules. destruct e as [k [|l']]; simpl in *; [done|].
  rewrite lookup_insert_ne; [done|congruence].
Qed.

Lemma entry_rules_insert_eq (h : Heap) l a t k :
  h !! l = Some a →
  entry_rules (<[l := mkAssertion (Policy a ++ [t])]> h) (k, addr l)
  = entry_rules h (k, addr l) ++ [(k, t)].
Proof.
  intros Ha. unfold entry_rules. simpl.
  rewrite lookup_insert_eq, Ha. simpl. by rewrite fmap_app.
Qed.

Lemma bind_entry_rules_insert_fresh (h : Heap) l a' (es : list (string * ptr)) :
  addr l ∉ es.*2 →
  es ≫= entry_rules (<[l := a']> h) = es ≫= entry_rules h.
Proof.
  induction es as [|e es IH]; [done|]. rewrite fmap_cons, not_elem_of_cons.
  intros [Hne Hnin]. rewrite !bind_cons, IH by done.
  by rewrite entry_rules_insert_ne.
Qed.

(** Filing a rule through a pointer that one entry holds adds one pair. *)
Lemma bind_entry_rules_filed (h : Heap) l a t k (es : list (string * ptr)) :
  NoDup es.*2 → (k, addr l) ∈ es → h !! l = Some a →
  es ≫= entry_rules (<[l := mkAssertion (Policy a ++ [t])]> h)
  ≡ₚ (es ≫= entry_rules h) ++ [(k, t)].
Proof.
  intros Hnd Hin Ha. induction es as [|e es IH]; [by apply elem_of_nil in Hin|].
  rewrite fmap_cons in Hnd. apply NoDup_cons in Hnd as [Hfresh Hnd].
  rewrite !bind_cons. apply elem_of_cons in Hin as [<-|Hin].
  - simpl in Hfresh.
    rewrite bind_entry_rules_insert_fresh, entry_rules_insert_eq by done.
    rewrite <- !app_assoc. apply Permutation_app_head, Permutation_app_comm.
  - assert (e.2 ≠ addr l) as Hne.
    { intros He. apply Hfresh. rewrite He.
      apply (list_elem_of_fmap_2 snd _ _ Hin). }
    rewrite entry_rules_insert_ne, IH by done.
    by rewrite app_assoc.
Qed.

Lemma model_entries_lookup (m : Model) sec key l :
  (m !!! sec) !!! key = addr l → (key, addr l) ∈ model_entries m.
Proof.
  rewrite !lookup_total_alt. intros H.
  destruct (m !! sec) as [am|] eqn:Hsec; simpl in H.
  - destruct (am !! key) as [p|] eqn:Hkey; simpl in H; [|done]. subst p.
    unfold model_entries. apply list_elem_of_bind. exists (sec, am). split.
    + simpl. by apply elem_of_map_to_list.
    + by apply elem_of_map_to_list.
  - by rewrite lookup_empty in H.
Qed.

Lemma accepted_filed (m : Model) (h : Heap) l0 a' line :
  is_Some (h !! l0) → accepted m h line → accepted m (<[l0 := a']> h) line.
Proof.
  intros H0 (c & rest & l & Hp & Hs & Hl). exists c, rest, l.
  split_and!; try done. apply lookup_insert_is_Some'. by right.
Qed.

Lemma load_loop_ok (m : Model) docs w :
  NoDup (model_entries m).*2 →
  Forall (accepted m (heap w)) docs →
  ∃ w',
    load_loop docs m w = Ok (tt, w') ∧
    store w' = store w ∧
    model_rules (heap w') m ≡ₚ model_rules (heap w) m ++ (record_rule <$> docs).
Proof.
  intros Hnd. revert w. induction docs as [|line docs IH]; intros w Hacc.
  - exists w. simpl. split_and!; try done. by rewrite app_nil_r.
  - apply Forall_cons in Hacc as [(c & rest & l & Hp & Hs & [a0 Ha]) Hacc].
    pose proof (loadPolicyLine_ok line m w c rest l a0 Hp Hs Ha) as Hstep.
    destruct (IH (filed l a0 (lineTokens line) w)) as (w' & Hrun & Hst & Hrules).
    { simpl. eapply Forall_impl; [exact Hacc|].
      intros d Hd. by apply accepted_filed. }
    exists w'. split_and!.
    + simpl. by rewrite (go_bind_ok _ _ w tt _ Hstep).
    + by rewrite Hst.
    + rewrite Hrules. simpl. unfold model_rules at 1.
      rewrite (bind_entry_rules_filed (heap w) l a0 (lineTokens line) (PType line))
        by eauto using model_entries_lookup.
      by rewrite <- app_assoc.
Qed.

Lemma LoadPolicy_ok env a (m : Model) w :
  collection a ≠ None →
  cursor_fault env = None →
  NoDup (model_entries m).*2 →
  Forall (accepted m (heap w)) (cursor_order env (records w)) →
  ∃ w',
    LoadPolicy env a m w = Ok (None, w') ∧
    store w' = store w ∧
    model_rules (heap w') m
    ≡ₚ model_rules (heap w) m ++ (record_rule <$> cursor_order env (records w)).
Proof.
  intros Hc Hf Hnd Hacc.
  destruct (load_loop_ok m _ w Hnd Hacc) as (w' & Hrun & Hst & Hrules).
  exists w'. split_and!; try done.
  unfold LoadPolicy. rewrite go_bind_unfold. unfold Find_Iter.
  destruct (collection a); [|done]. rewrite Hf. simpl.
  by rewrite (go_bind_ok _ _ w tt w' Hrun).
Qed.

(** ** Save, then load *)

Lemma bind_entry_rules_empty (h : Heap) (es : list (string * ptr)) :
  Forall (λ e, points_to_empty h e.2) es → es ≫= entry_rules h = [].
Proof.
  induction 1 as [|[k p] es Hp _ IH]; [done|].
  rewrite bind_cons, IH, app_nil_r.
  destruct p as [|l]; simpl in Hp; [done|].
  unfold entry_rules, policy_at; simpl. by rewrite Hp.
Qed.

Lemma record_rule_rule_record kr : storable kr → record_rule (rule_record kr) = kr.
Proof.
  destruct kr as [ptype fields]. intros [Hlen Hne].
  unfold record_rule, rule_record. simpl in *.
  by rewrite lineTokens_record_of.
Qed.

Lemma declares_accepted (m : Model) (h : Heap) ptype fields :
  declares m ptype →
  Forall (λ e, points_to_empty h e.2) (model_entries m) →
  accepted m h (record_of ptype fields).
Proof.
  intros Hd Hempty. destruct ptype as [|c rest]; [done|]. simpl in Hd.
  destruct ((m !!! String c "") !!! String c rest) as [|l] eqn:Hs; [done|].
  exists c, rest, l. split_and!; try done.
  apply model_entries_lookup in Hs.
  rewrite Forall_forall in Hempty. specialize (Hempty _ Hs). simpl in Hempty.
  by rewrite Hempty.
Qed.

Section roundtrip.
Context (env : Env) (a : Adapter).
Hypothesis bound : collection a ≠ None.
Hypothesis no_drop_fault : drop_fault env = None.
Hypothesis no_insert_fault : insert_fault env = None.
Hypothesis no_cursor_fault : cursor_fault env = None.
Hypothesis range_perm : ∀ n am, range_order env n am ≡ₚ map_to_list am.
Hypothesis cursor_perm : ∀ docs, cursor_order env docs ≡ₚ docs.

(** C3 (as amended).  Against a driver that reports no failure, take a
    model whose rules under ["p"] and ["g"] have at most six fields, none of
    them empty, and a fresh empty model that declares the ptype of each of
    these rules.  Then [SavePolicy] followed by [LoadPolicy] into the fresh
    model returns without error, and the pairs (ptype, fields) of the loaded
    model are those of the sections ["p"] and ["g"] of the saved one, as
    multisets. *)
Theorem SavePolicy_LoadPolicy_roundtrip (m m' : Model) w :
  map_Forall (λ _ p, live (heap w) p) (m !!! "p") →
  map_Forall (λ _ p, live (heap w) p) (m !!! "g") →
  Forall storable (saved_rules (heap w) m) →
  Forall (λ kr, declares m' kr.1) (saved_rules (heap w) m) →
  fresh_empty (heap w) m' →
  ∃ w1 w2,
    SavePolicy env a m w = Ok (None, w1) ∧
    LoadPolicy env a m' w1 = Ok (None, w2) ∧
    model_rules (heap w2) m' ≡ₚ saved_rules (heap w) m.
Proof.
  intros Hp Hg Hstorable Hdeclared [Hnd Hempty].
  set (w1 := mkWorld (heap w) (Some (saved_lines env (heap w) m))).
  assert (Hbatch : cursor_order env (records w1)
                   ≡ₚ rule_record <$> saved_rules (heap w) m).
  { rewrite cursor_perm. by apply saved_lines_perm. }
  assert (Hacc : Forall (accepted m' (heap w1)) (cursor_order env (records w1))).
  { rewrite Hbatch. apply Forall_fmap.
    eapply Forall_impl; [exact Hdeclared|].
    intros [ptype fields] Hd. by apply declares_accepted. }
  destruct (LoadPolicy_ok env a m' w1 bound no_cursor_fault Hnd Hacc)
    as (w2 & Hload & _ & Hrules).
  exists w1, w2. split_and!.
  - by apply SavePolicy_ok.
  - exact Hload.
  - assert (Hback : record_rule <$> (rule_record <$> saved_rules (heap w) m)
                    = saved_rules (heap w) m).
    { rewrite <- list_fmap_compose.
      rewrite <- (list_fmap_id (saved_rules (heap w) m)) at 2.
      apply Forall_fmap_ext. eapply Forall_impl; [exact Hstorable|].
      intros kr Hkr. simpl. by apply record_rule_rule_record. }
    rewrite Hrules, Hbatch, Hback. unfold model_rules. simpl.
    by rewrite (bind_entry_rules_empty _ _ Hempty).
Qed.

End roundtrip.

Lemma SavePolicy_LoadPolicy_roundtrip_sample :
  ∃ w1 w2,
    SavePolicy quiet_env sample_adapter policy_model policy_world = Ok (None, w1) ∧
    LoadPolicy quiet_env sample_adapter fresh_model w1 = Ok (None, w2) ∧
    model_rules (heap w2) fresh_model
    ≡ₚ saved_rules (heap policy_world) policy_model.
Proof.
  apply (SavePolicy_LoadPolicy_roundtrip quiet_env sample_adapter).
  - discriminate.
  - reflexivity.
  - reflexivity.
  - reflexivity.
  - intros n am. reflexivity.
  - intros docs. reflexivity.
  - apply (bool_decide_unpack _). vm_compute. exact I.
  - apply (bool_decide_unpack _). vm_compute. exact I.
  - apply (bool_decide_unpack _). vm_compute. exact I.
  - apply (bool_decide_unpack _). vm_compute. exact I.
  - apply (bool_decide_unpack _). vm_compute. exact I.
Defined.

(** C3 (as stated) fails on a rule of seven fields, none of them empty:
    the record keeps six of them, and the loaded model holds a pair that
    the saved model does not. *)
Lemma long_rule_not_restored :
  Forall (λ kr : string * list string, "" ∉ kr.2)
    (saved_rules (heap long_rule_world) policy_model) ∧
  fresh_empty (heap long_rule_world) fresh_model ∧
  ∃ w1 w2,
    SavePolicy quiet_env sample_adapter policy_model long_rule_world
    = Ok (None, w1) ∧
    LoadPolicy quiet_env sample_adapter fresh_model w1 = Ok (None, w2) ∧
    saved_rules (heap long_rule_world) policy_model
    = [("p", ["f0"; "f1"; "f2"; "f3"; "f4"; "f5"; "f6"])] ∧
    model_rules (heap w2) fresh_model
    = [("p", ["f0"; "f1"; "f2"; "f3"; "f4"; "f5"])] ∧
    ¬ (model_rules (heap w2) fresh_model
       ≡ₚ saved_rules (heap long_rule_world) policy_model).
Proof.
  split_and!.
  - apply (bool_decide_unpack _). vm_compute. exact I.
  - apply (bool_decide_unpack _). vm_compute. exact I.
  - eexists _, _. split; [vm_compute; reflexivity|].
    split; [vm_compute; reflexivity|].
    assert (Hs : saved_rules (heap long_rule_world) policy_model
                 = [("p", ["f0"; "f1"; "f2"; "f3"; "f4"; "f5"; "f6"])])
      by (vm_compute; reflexivity).
    split; [exact Hs|]. rewrite Hs.
    match goal with |- ?l = _ ∧ _ =>
      assert (Hl : l = [("p", ["f0"; "f1"; "f2"; "f3"; "f4"; "f5"])])
        by (vm_compute; reflexivity)
    end.
    split; [exact Hl|]. rewrite Hl.
    intros Hperm. apply Permutation_singleton_inj in Hperm. discriminate.
Qed.

(** The scenario of the specification: saving [p = [[alice, data1, read]]]
    and [g = [[alice, admin]]] and loading into a fresh model. *)
Example save_load_scenario :
  ∃ w1 w2,
    SavePolicy quiet_env sample_adapter policy_model policy_world = Ok (None, w1) ∧
    records w1 = [mkCasbinRule "p" "alice" "data1" "read" "" "" "";
                  mkCasbinRule "g" "alice" "admin" "" "" "" ""] ∧
    LoadPolicy quiet_env sample_adapter fresh_model w1 = Ok (None, w2) ∧
    policy_at (heap w2) ((fresh_model !!! "p") !!! "p") = [["alice"; "data1"; "read"]] ∧
    policy_at (heap w2) ((fresh_model !!! "g") !!! "g") = [["alice"; "admin"]].
Proof.
  eexists _, _. split_and!; vm_compute; reflexivity.
Qed.

(** * Further properties of the codec *)

Lemma fields_of_record_of_padded ptype rule :
  fields_of (record_of ptype rule) = padded rule.
Proof.
  unfold padded.
  by destruct rule as [|f0 [|f1 [|f2 [|f3 [|f4 [|f5 r]]]]]].
Qed.

Lemma scan_until_empty_pad vs rest :
  scan_until_empty (vs ++ "" :: rest) = scan_until_empty vs.
Proof.
  induction vs as [|v vs IH]; simpl; [done|].
  case_decide; [done|]. by rewrite IH.
Qed.

Lemma scan_until_empty_padded rule :
  scan_until_empty (padded rule) = scan_until_empty (take 6 rule).
Proof.
  unfold padded. destruct (decide (6 ≤ length rule)) as [Hlen|Hlen].
  - by rewrite take_app_le.
  - rewrite take_app, (take_ge rule) by lia. rewrite take_replicate.
    destruct (6 - length rule) as [|n] eqn:Hn; [lia|].
    replace (6 `min` 6) with 6 by lia. simpl.
    rewrite Nat.min_l by lia. apply scan_until_empty_pad.
Qed.

Lemma scan_until_empty_prefix vs : scan_until_empty vs `prefix_of` vs.
Proof.
  induction vs as [|v vs IH]; simpl; [done|].
  case_decide; [apply prefix_nil|]. by apply prefix_cons.
Qed.

(** X1.  Decoding the record of any rule gives the longest prefix of its
    first six fields in which no field is empty. *)
Theorem lineTokens_savePolicyLine_prefix ptype rule :
  ∃ line,
    savePolicyLine ptype rule = Ok line ∧
    PType line = ptype ∧
    lineTokens line = scan_until_empty (take 6 rule) ∧
    lineTokens line `prefix_of` rule ∧
    (length (lineTokens line) < length rule →
     length (lineTokens line) < 6 →
     rule !! length (lineTokens line) = Some "").
Proof.
  exists (record_of ptype rule).
  assert (Htok : lineTokens (record_of ptype rule) = scan_until_empty (take 6 rule)).
  { by rewrite lineTokens_scan, fields_of_record_of_padded, scan_until_empty_padded. }
  split_and!.
  - apply savePolicyLine_ok.
  - reflexivity.
  - exact Htok.
  - rewrite Htok. etrans; [apply scan_until_empty_prefix|apply prefix_take].
  - rewrite Htok. clear Htok. intros Hlt H6.
    assert (Hgen : ∀ vs : list string,
               length (scan_until_empty vs) < length vs →
               vs !! length (scan_until_empty vs) = Some "").
    { induction vs as [|v vs IH]; simpl; [lia|].
      case_decide; simpl; [by subst|]. intros ?. apply IH. lia. }
    rewrite <- (lookup_take_lt rule 6) by done.
    apply Hgen. rewrite length_take. lia.
Qed.

Lemma record_of_fields ptype rule :
  record_of ptype rule
  = mkCasbinRule ptype
      (default "" (padded rule !! 0)) (default "" (padded rule !! 1))
      (default "" (padded rule !! 2)) (default "" (padded rule !! 3))
      (default "" (padded rule !! 4)) (default "" (padded rule !! 5)).
Proof.
  unfold padded.
  by destruct rule as [|f0 [|f1 [|f2 [|f3 [|f4 [|f5 r]]]]]].
Qed.

Lemma Ok_inj {A} (x y : A) : Ok x = Ok y → x = y.
Proof. by intros [= ->]. Qed.

Lemma take_app_replicate_ge (l : list string) (x : string) n k :
  n ≤ k → take n (l ++ replicate k x) = take n (l ++ replicate n x).
Proof.
  revert n k. induction l as [|a l IH]; intros n k Hle.
  - simpl. rewrite !take_replicate. f_equal. lia.
  - destruct n as [|n]; [done|].
    rewrite <- !app_comm_cons, !firstn_cons. f_equal.
    rewrite (IH n k) by lia. rewrite (IH n (S n)) by lia. done.
Qed.

(** X2.  Two calls of [savePolicyLine] return the same record exactly when
    the ptypes are equal and the rules agree on their first six fields, a
    missing field counting as an empty one: the fields beyond index 5 and
    the difference between an absent and an empty trailing field are what
    encoding loses. *)
Theorem savePolicyLine_same_record_iff ptype1 rule1 ptype2 rule2 :
  savePolicyLine ptype1 rule1 = savePolicyLine ptype2 rule2 ↔
  ptype1 = ptype2 ∧ padded rule1 = padded rule2.
Proof.
  rewrite !savePolicyLine_ok. split.
  - intros H. apply Ok_inj in H.
    split; [by apply (f_equal PType) in H|].
    apply (f_equal fields_of) in H.
    by rewrite !fields_of_record_of_padded in H.
  - intros [-> H]. by rewrite (record_of_fields _ rule1), (record_of_fields _ rule2), H.
Qed.

(** X3.  Empty fields appended to a rule never reach the store: the record
    is the one of the rule without them. *)
Theorem savePolicyLine_trailing_empty ptype rule n :
  savePolicyLine ptype (rule ++ replicate n "") = savePolicyLine ptype rule.
Proof.
  rewrite !savePolicyLine_ok, (record_of_fields _ rule), record_of_fields.
  assert (Hpad : padded (rule ++ replicate n "") = padded rule).
  { unfold padded. rewrite <- app_assoc, <- replicate_add.
    apply take_app_replicate_ge. lia. }
  by rewrite Hpad.
Qed.

(** X4.  On rules of at most six fields, none of them empty, encoding is
    injective: two such rules with the same record are the same rule under
    the same ptype. *)
Theorem savePolicyLine_injective ptype1 rule1 ptype2 rule2 :
  storable (ptype1, rule1) →
  storable (ptype2, rule2) →
  savePolicyLine ptype1 rule1 = savePolicyLine ptype2 rule2 →
  ptype1 = ptype2 ∧ rule1 = rule2.
Proof.
  intros [Hl1 Hn1] [Hl2 Hn2]. rewrite !savePolicyLine_ok. intros H.
  apply Ok_inj in H. split; [by apply (f_equal PType) in H|].
  apply (f_equal lineTokens) in H. simpl in *.
  by rewrite !lineTokens_record_of in H.
Qed.

Lemma savePolicyLine_injective_sample :
  "p" = "p" ∧ ["alice"; "data1"; "read"] = ["alice"; "data1"; "read"].
Proof.
  apply (savePolicyLine_injective "p" ["alice"; "data1"; "read"]
                                  "p" ["alice"; "data1"; "read"]).
  - apply (bool_decide_unpack _). vm_compute. exact I.
  - apply (bool_decide_unpack _). vm_compute. exact I.
  - reflexivity.
Defined.

(** X5.  Decoding is stable under a further save: the fields decoded from
    any record, saved under any ptype and decoded again, are the same
    fields. *)
Theorem lineTokens_stable line ptype :
  ∃ line',
    savePolicyLine ptype (lineTokens line) = Ok line' ∧
    lineTokens line' = lineTokens line.
Proof.
  exists (record_of ptype (lineTokens line)). split.
  - apply savePolicyLine_ok.
  - apply lineTokens_record_of;
      [apply lineTokens_length|apply lineTokens_nonempty].
Qed.

(** * Further properties of loading *)

Lemma target_filed line (m : Model) c rest l :
  PType line = String c rest →
  (m !!! String c "") !!! PType line = addr l →
  target m line = addr l.
Proof. intros Hp Hs. unfold target. rewrite Hp. by rewrite Hp in Hs. Qed.

Lemma accepted_target (m : Model) (h : Heap) line :
  accepted m h line ↔ ∃ l, target m line = addr l ∧ is_Some (h !! l).
Proof.
  split.
  - intros (c & rest & l & Hp & Hs & Hl). exists l. split; [|done].
    by apply (target_filed line m c rest).
  - intros (l & Ht & Hl). unfold target in Ht.
    destruct (PType line) as [|c rest] eqn:Hp; [done|].
    exists c, rest, l. by rewrite Hp.
Qed.

Lemma accepted_dom (m : Model) (h h' : Heap) line :
  dom h = dom h' → accepted m h line → accepted m h' line.
Proof.
  intros Hdom (c & rest & l & Hp & Hs & Hl). exists c, rest, l.
  split_and!; try done.
  apply elem_of_dom. rewrite <- Hdom. by apply elem_of_dom.
Qed.

Lemma filed_dom l a tokens w :
  heap w !! l = Some a → dom (heap (filed l a tokens w)) = dom (heap w).
Proof. intros Ha. simpl. by apply dom_insert_lookup_L. Qed.

(** X6.  Whenever [loadPolicyLine] returns it has appended the decoded
    fields after the rules the assertion of the ptype already held, and has
    done nothing else: the collection, the set of assertions and every
    other assertion are as before. *)
Theorem loadPolicyLine_frame line (m : Model) w w' :
  loadPolicyLine line m w = Ok (tt, w') →
  store w' = store w ∧
  dom (heap w') = dom (heap w) ∧
  ∃ l a,
    target m line = addr l ∧
    heap w !! l = Some a ∧
    heap w' !! l = Some (mkAssertion (Policy a ++ [lineTokens line])) ∧
    ∀ l', l' ≠ l → heap w' !! l' = heap w !! l'.
Proof.
  intros H. apply loadPolicyLine_inv in H as (c & rest & l & a & Hp & Hs & Ha & ->).
  split_and!.
  - reflexivity.
  - by apply filed_dom.
  - exists l, a. split_and!.
    + by apply (target_filed line m c rest).
    + exact Ha.
    + simpl. apply lookup_insert_eq.
    + intros l' Hne. simpl. by apply lookup_insert_ne.
Qed.

Lemma loadPolicyLine_frame_sample :
  store (filed 1 (mkAssertion []) ["alice"; "data1"; "read"] sample_world)
  = store sample_world ∧
  dom (heap (filed 1 (mkAssertion []) ["alice"; "data1"; "read"] sample_world))
  = dom (heap sample_world) ∧
  ∃ l a,
    target sample_model (mkCasbinRule "p" "alice" "data1" "read" "" "" "") = addr l ∧
    heap sample_world !! l = Some a ∧
    heap (filed 1 (mkAssertion []) ["alice"; "data1"; "read"] sample_world) !! l
    = Some (mkAssertion
              (Policy a ++ [lineTokens (mkCasbinRule "p" "alice" "data1" "read" "" "" "")])) ∧
    ∀ l', l' ≠ l →
      heap (filed 1 (mkAssertion []) ["alice"; "data1"; "read"] sample_world) !! l'
      = heap sample_world !! l'.
Proof.
  apply (loadPolicyLine_frame
           (mkCasbinRule "p" "alice" "data1" "read" "" "" "") sample_model).
  vm_compute. reflexivity.
Defined.

(** What a run of the loading loop that returns has done. *)
Lemma load_loop_inv (m : Model) docs w u w' :
  load_loop docs m w = Ok (u, w') →
  store w' = store w ∧
  dom (heap w') = dom (heap w) ∧
  Forall (accepted m (heap w)) docs ∧
  ∀ l, policy_at (heap w') (addr l)
       = policy_at (heap w) (addr l)
         ++ (lineTokens <$> filter (λ d, target m d = addr l) docs).
Proof.
  revert w. induction docs as [|d docs IH]; intros w H.
  - simpl in H. injection H as _ <-. split_and!; try done.
    intros l. by rewrite filter_nil, app_nil_r.
  - simpl in H. apply go_bind_inv in H as ([] & w1 & Hstep & Hrest).
    apply loadPolicyLine_inv in Hstep as (c & rest & l0 & a & Hp & Hs & Ha & ->).
    apply IH in Hrest as (Hst & Hdom & Hacc & Hpol).
    pose proof (target_filed d m c rest l0 Hp Hs) as Ht.
    rewrite (filed_dom l0 a _ w Ha) in Hdom.
    split_and!.
    + exact Hst.
    + exact Hdom.
    + apply Forall_cons. split.
      * exists c, rest, l0. by rewrite Ha.
      * eapply Forall_impl; [exact Hacc|]. intros d' Hd'.
        apply (accepted_dom m (heap (filed l0 a (lineTokens d) w))); [|done].
        by apply filed_dom.
    + intros l. rewrite Hpol. simpl.
      destruct (decide (l = l0)) as [->|Hne].
      * rewrite filter_cons_True by done.
        rewrite lookup_insert_eq, Ha. simpl. by rewrite <- app_assoc.
      * rewrite filter_cons_False by (rewrite Ht; congruence).
        by rewrite lookup_insert_ne.
Qed.

Lemma LoadPolicy_unfold env a (m : Model) w :
  LoadPolicy env a m w
  = match collection a with
    | None => Panic NilDereference
    | Some _ =>
        match load_loop (delivered env w) m w with
        | Ok (_, w') => Ok (snd <$> cursor_fault env, w')
        | Panic p => Panic p
        end
    end.
Proof.
  unfold LoadPolicy, delivered. rewrite go_bind_unfold. unfold Find_Iter.
  destruct (collection a); [|done].
  destruct (cursor_fault env) as [[k e]|]; simpl; rewrite go_bind_unfold;
    by destruct (load_loop _ m w) as [[[] w']|].
Qed.

Lemma load_loop_returns (m : Model) docs w :
  Forall (accepted m (heap w)) docs → ∃ w', load_loop docs m w = Ok (tt, w').
Proof.
  revert w. induction docs as [|d docs IH]; intros w Hacc; [by exists w|].
  apply Forall_cons in Hacc as [(c & rest & l & Hp & Hs & [a0 Ha]) Hacc].
  destruct (IH (filed l a0 (lineTokens d) w)) as [w' Hrun].
  { eapply Forall_impl; [exact Hacc|]. intros d' Hd'.
    apply (accepted_dom m (heap w)); [|done]. symmetry. by apply filed_dom. }
  exists w'. simpl.
  by rewrite (go_bind_ok _ _ w tt _ (loadPolicyLine_ok d m w c rest l a0 Hp Hs Ha)).
Qed.

(** X7.  [LoadPolicy] returns exactly when the adapter holds a collection
    and the model has an assertion for every delivered record, that is when
    each such record has a non-empty ptype and [model[ptype[:1]][ptype]] is
    not nil; one record without it makes the whole call panic. *)
Theorem LoadPolicy_returns_iff env a (m : Model) w :
  (∃ r w', LoadPolicy env a m w = Ok (r, w')) ↔
  collection a ≠ None ∧ Forall (accepted m (heap w)) (delivered env w).
Proof.
  rewrite LoadPolicy_unfold. split.
  - intros (r & w' & H). destruct (collection a); [|done]. split; [done|].
    destruct (load_loop (delivered env w) m w) as [[u w1]|] eqn:Hrun; [|done].
    by apply load_loop_inv in Hrun as (_ & _ & Hacc & _).
  - intros [Hc Hacc]. destruct (collection a); [|done].
    destruct (load_loop_returns m _ w Hacc) as [w' ->]. by eexists _, _.
Qed.

(** X8.  [LoadPolicy] appends in cursor order: when it returns, each
    assertion holds the rules it held before, followed by the decoded fields
    of the delivered records filed through it, in the order of delivery. *)
Theorem LoadPolicy_appends_in_order env a (m : Model) w r w' :
  LoadPolicy env a m w = Ok (r, w') →
  ∀ l, policy_at (heap w') (addr l)
       = policy_at (heap w) (addr l)
         ++ (lineTokens <$> filter (λ d, target m d = addr l) (delivered env w)).
Proof.
  rewrite LoadPolicy_unfold. intros H. destruct (collection a); [|done].
  destruct (load_loop (delivered env w) m w) as [[u w1]|] eqn:Hrun; [|done].
  injection H as _ <-. by apply load_loop_inv in Hrun as (_ & _ & _ & Hpol).
Qed.

Lemma LoadPolicy_dom env a (m : Model) w r w' :
  LoadPolicy env a m w = Ok (r, w') → dom (heap w') = dom (heap w).
Proof.
  rewrite LoadPolicy_unfold. intros H. destruct (collection a); [|done].
  destruct (load_loop (delivered env w) m w) as [[u w1]|] eqn:Hrun; [|done].
  injection H as _ <-. by apply load_loop_inv in Hrun as (_ & ? & _ & _).
Qed.

(** X9.  [LoadPolicy] only reads the collection and only appends to
    assertions that exist: when it returns, the stored records and the set
    of assertions are as before, and its result is the error of [Close]. *)
Theorem LoadPolicy_preserves_store env a (m : Model) w r w' :
  LoadPolicy env a m w = Ok (r, w') →
  store w' = store w ∧
  dom (heap w') = dom (heap w) ∧
  r = snd <$> cursor_fault env.
Proof.
  rewrite LoadPolicy_unfold. intros H. destruct (collection a); [|done].
  destruct (load_loop (delivered env w) m w) as [[u w1]|] eqn:Hrun; [|done].
  injection H as <- <-. by apply load_loop_inv in Hrun as (? & ? & _ & _).
Qed.

Section load.
Context (env : Env) (a : Adapter).
Hypothesis bound : collection a ≠ None.

(** X10.  [LoadPolicy] adds to the model and does not clear it: against a
    cursor without failure the pairs of the model afterwards are those it
    held before together with one pair per stored record, so that loading
    twice leaves every stored record in the model twice. *)
Theorem LoadPolicy_accumulates (m : Model) w :
  cursor_fault env = None →
  NoDup (model_entries m).*2 →
  Forall (accepted m (heap w)) (cursor_order env (records w)) →
  ∃ w1 w2,
    LoadPolicy env a m w = Ok (None, w1) ∧
    model_rules (heap w1) m
    ≡ₚ model_rules (heap w) m ++ (record_rule <$> cursor_order env (records w)) ∧
    LoadPolicy env a m w1 = Ok (None, w2) ∧
    model_rules (heap w2) m
    ≡ₚ model_rules (heap w) m
       ++ (record_rule <$> cursor_order env (records w))
       ++ (record_rule <$> cursor_order env (records w)).
Proof.
  intros Hf Hnd Hacc.
  destruct (LoadPolicy_ok env a m w bound Hf Hnd Hacc) as (w1 & H1 & Hst1 & Hr1).
  pose proof (LoadPolicy_dom env a m w _ _ H1) as Hdom.
  assert (Hrec : records w1 = records w) by (unfold records; by rewrite Hst1).
  assert (Hacc1 : Forall (accepted m (heap w1)) (cursor_order env (records w1))).
  { rewrite Hrec. eapply Forall_impl; [exact Hacc|]. intros d Hd.
    by apply (accepted_dom m (heap w)). }
  destruct (LoadPolicy_ok env a m w1 bound Hf Hnd Hacc1) as (w2 & H2 & _ & Hr2).
  exists w1, w2. split_and!; try done.
  by rewrite Hr2, Hr1, Hrec, <- app_assoc.
Qed.

(** X11.  When the cursor breaks after [k] records, [LoadPolicy] returns the
    error of [Close] and the model keeps the rules of those [k] records:
    nothing is rolled back. *)
Theorem LoadPolicy_cursor_failure (m : Model) w k e :
  cursor_fault env = Some (k, e) →
  NoDup (model_entries m).*2 →
  Forall (accepted m (heap w)) (take k (cursor_order env (records w))) →
  ∃ w',
    LoadPolicy env a m w = Ok (Some e, w') ∧
    model_rules (heap w') m
    ≡ₚ model_rules (heap w) m
       ++ (record_rule <$> take k (cursor_order env (records w))).
Proof.
  intros Hf Hnd Hacc.
  destruct (load_loop_ok m _ w Hnd Hacc) as (w' & Hrun & _ & Hrules).
  exists w'. split; [|done].
  rewrite LoadPolicy_unfold. destruct (collection a); [|done].
  unfold delivered. rewrite Hf, Hrun. reflexivity.
Qed.

End load.

Lemma LoadPolicy_stored_world :
  LoadPolicy quiet_env sample_adapter fresh_model stored_world
  = Ok (None, loaded_world).
Proof. vm_compute. reflexivity. Qed.

Lemma LoadPolicy_appends_in_order_sample :
  policy_at (heap loaded_world) (addr 4)
  = policy_at (heap stored_world) (addr 4)
    ++ (lineTokens <$> filter (λ d, target fresh_model d = addr 4)
                         (delivered quiet_env stored_world)).
Proof.
  apply (LoadPolicy_appends_in_order quiet_env sample_adapter fresh_model
           stored_world None loaded_world).
  vm_compute. reflexivity.
Defined.

Lemma LoadPolicy_preserves_store_sample :
  store loaded_world = store stored_world ∧
  dom (heap loaded_world) = dom (heap stored_world) ∧
  None = snd <$> cursor_fault quiet_env.
Proof.
  apply (LoadPolicy_preserves_store quiet_env sample_adapter fresh_model).
  vm_compute. reflexivity.
Defined.

Lemma LoadPolicy_accumulates_sample :
  ∃ w1 w2,
    LoadPolicy quiet_env sample_adapter fresh_model stored_world = Ok (None, w1) ∧
    model_rules (heap w1) fresh_model
    ≡ₚ model_rules (heap stored_world) fresh_model
       ++ (record_rule <$> cursor_order quiet_env (records stored_world)) ∧
    LoadPolicy quiet_env sample_adapter fresh_model w1 = Ok (None, w2) ∧
    model_rules (heap w2) fresh_model
    ≡ₚ model_rules (heap stored_world) fresh_model
       ++ (record_rule <$> cursor_order quiet_env (records stored_world))
       ++ (record_rule <$> cursor_order quiet_env (records stored_world)).
Proof.
  apply (LoadPolicy_accumulates quiet_env sample_adapter).
  - discriminate.
  - reflexivity.
  - apply (bool_decide_unpack _). vm_compute. exact I.
  - rewrite Forall_forall. intros d Hd. apply accepted_target.
    vm_compute in Hd.
    repeat (apply elem_of_cons in Hd as [->|Hd];
            [eexists; split; [vm_compute; reflexivity|vm_compute; eauto]|]).
    by apply elem_of_nil in Hd.
Defined.

Lemma LoadPolicy_cursor_failure_sample :
  ∃ w',
    LoadPolicy broken_cursor_env sample_adapter fresh_model stored_world
    = Ok (Some "cursor timeout", w') ∧
    model_rules (heap w') fresh_model
    ≡ₚ model_rules (heap stored_world) fresh_model
       ++ (record_rule <$> take 2 (cursor_order broken_cursor_env (records stored_world))).
Proof.
  apply (LoadPolicy_cursor_failure broken_cursor_env sample_adapter).
  - discriminate.
  - reflexivity.
  - apply (bool_decide_unpack _). vm_compute. exact I.
  - rewrite Forall_forall. intros d Hd. apply accepted_target.
    vm_compute in Hd.
    repeat (apply elem_of_cons in Hd as [->|Hd];
            [eexists; split; [vm_compute; reflexivity|vm_compute; eauto]|]).
    by apply elem_of_nil in Hd.
Defined.

(** * Further properties of saving *)

Lemma save_section_inv entries lines w ls w' :
  save_section entries lines w = Ok (ls, w') →
  w' = w ∧ Forall (λ e, live (heap w) e.2) entries.
Proof.
  revert lines. induction entries as [|[ptype p] entries IH]; intros lines H.
  - simpl in H. injection H as _ <-. by split.
  - simpl in H. apply go_bind_inv in H as (policy & w1 & Hload & H).
    apply go_bind_inv in H as (lines1 & w2 & Hlift & H).
    unfold load_Policy in Hload. destruct p as [|l]; [done|].
    destruct (heap w !! l) as [a0|] eqn:Ha; [|done]. injection Hload as _ <-.
    unfold lift in Hlift. destruct (save_rules ptype policy lines); [|done].
    injection Hlift as _ <-. apply IH in H as [-> Hlive].
    split; [done|]. apply Forall_cons. split; [|done]. simpl. by rewrite Ha.
Qed.

Lemma dropTable_inv env a w u w' :
  dropTable env a w = Ok (u, w') →
  heap w' = heap w ∧ (store w' = store w ∨ store w' = None).
Proof.
  rewrite dropTable_unfold. case_decide; [intros [= _ <-]; split; auto|].
  unfold DropCollection. destruct (collection a); [|done].
  destruct (drop_fault env) as [e|].
  - case_decide; [done|]. intros [= _ <-]; split; auto.
  - destruct (store w) eqn:Hs.
    + intros [= _ <-]; split; auto.
    + case_decide; [done|]. intros [= _ <-]; split; auto.
Qed.

(** X12.  [SavePolicy] never writes to the policy model: whenever it
    returns, with or without an error, every assertion is as before. *)
Theorem SavePolicy_preserves_model env a (m : Model) w r w' :
  SavePolicy env a m w = Ok (r, w') → heap w' = heap w.
Proof.
  unfold SavePolicy. intros H.
  apply go_bind_inv in H as (u & w1 & Hdrop & H).
  apply go_bind_inv in H as (u' & w2 & Hcreate & H).
  apply go_bind_inv in H as (lines1 & w3 & Hp & H).
  apply go_bind_inv in H as (lines2 & w4 & Hg & H).
  apply go_bind_inv in H as (err & w5 & Hins & H).
  injection H as _ <-. injection Hcreate as _ <-.
  apply dropTable_inv in Hdrop as [Hh _].
  apply save_section_inv in Hp as [-> _].
  apply save_section_inv in Hg as [-> _].
  unfold Insert in Hins. destruct (collection a); [|done].
  destruct (insert_fault env) as [[k e]|]; injection Hins as _ <-; done.
Qed.

Lemma SavePolicy_preserves_model_sample :
  heap (mkWorld (heap policy_world)
          (Some [mkCasbinRule "p" "alice" "data1" "read" "" "" "";
                 mkCasbinRule "g" "alice" "admin" "" "" "" ""]))
  = heap policy_world.
Proof.
  apply (SavePolicy_preserves_model quiet_env sample_adapter policy_model
           policy_world None).
  vm_compute. reflexivity.
Defined.

Section save_outcomes.
Context (env : Env) (a : Adapter).
Hypothesis bound : collection a ≠ None.
Hypothesis range_perm : ∀ n am, range_order env n am ≡ₚ map_to_list am.

(** The call on live assertions, whatever [Insert] does. *)
Lemma SavePolicy_run (m : Model) w :
  drop_fault env = None →
  map_Forall (λ _ p, live (heap w) p) (m !!! "p") →
  map_Forall (λ _ p, live (heap w) p) (m !!! "g") →
  SavePolicy env a m w
  = Ok (snd <$> insert_fault env,
        mkWorld (heap w)
          (Some match insert_fault env with
                | Some (k, _) => take k (saved_lines env (heap w) m)
                | None => saved_lines env (heap w) m
                end)).
Proof.
  intros Hdrop Hp Hg. unfold SavePolicy.
  destruct (dropTable_ok env a w bound Hdrop) as (w1 & Hd & Hh & Hs).
  assert (Hp1 : Forall (λ e, live (heap w1) e.2) (range_order env 0 (m !!! "p"))).
  { rewrite Hh. by apply (map_Forall_entries _ (m !!! "p")). }
  assert (Hg1 : Forall (λ e, live (heap w1) e.2) (range_order env 1 (m !!! "g"))).
  { rewrite Hh. by apply (map_Forall_entries _ (m !!! "g")). }
  rewrite (go_bind_ok _ _ w tt w1 Hd).
  rewrite (go_bind_ok _ _ w1 tt w1) by reflexivity.
  rewrite (go_bind_ok _ _ w1 _ w1 (save_section_ok _ [] w1 Hp1)).
  rewrite (go_bind_ok _ _ w1 _ w1 (save_section_ok _ _ w1 Hg1)).
  rewrite go_bind_unfold. unfold Insert.
  destruct (collection a); [|done].
  unfold records, set_store, saved_lines. rewrite Hs, Hh. simpl.
  rewrite fmap_app. by destruct (insert_fault env) as [[k e]|].
Qed.

(** X13.  With a collection bound and a drop that succeeds, [SavePolicy]
    returns exactly when no assertion under ["p"] or ["g"] is nil; a nil
    assertion there makes it panic, one under any other section does not
    matter. *)
Theorem SavePolicy_returns_iff (m : Model) w :
  drop_fault env = None →
  (∃ r w', SavePolicy env a m w = Ok (r, w')) ↔
  map_Forall (λ _ p, live (heap w) p) (m !!! "p") ∧
  map_Forall (λ _ p, live (heap w) p) (m !!! "g").
Proof.
  intros Hdrop. split.
  - intros (r & w' & H). unfold SavePolicy in H.
    apply go_bind_inv in H as (u & w1 & Hd & H).
    apply go_bind_inv in H as (u' & w2 & Hcreate & H).
    apply go_bind_inv in H as (lines1 & w3 & Hp & H).
    apply go_bind_inv in H as (lines2 & w4 & Hg & _).
    injection Hcreate as _ <-.
    apply dropTable_inv in Hd as [Hh _].
    apply save_section_inv in Hp as [-> Hp].
    apply save_section_inv in Hg as [_ Hg].
    rewrite Hh in Hp, Hg. rewrite range_perm in Hp, Hg.
    rewrite Forall_forall in Hp, Hg.
    split; intros k p Hk; [apply (Hp (k, p))|apply (Hg (k, p))];
      by apply elem_of_map_to_list.
  - intros [Hp Hg]. rewrite SavePolicy_run by done. by eexists _, _.
Qed.

(** X14.  When [Insert] fails after writing [k] documents, [SavePolicy]
    returns that error; the records the collection held before are gone
    and only the first [k] new ones are there. *)
Theorem SavePolicy_insert_failure (m : Model) w k e :
  drop_fault env = None →
  insert_fault env = Some (k, e) →
  map_Forall (λ _ p, live (heap w) p) (m !!! "p") →
  map_Forall (λ _ p, live (heap w) p) (m !!! "g") →
  ∃ w',
    SavePolicy env a m w = Ok (Some e, w') ∧
    records w' = take k (saved_lines env (heap w) m) ∧
    heap w' = heap w.
Proof.
  intros Hdrop Hins Hp Hg. rewrite SavePolicy_run by done. rewrite Hins.
  by eexists.
Qed.

End save_outcomes.

(** X15.  [SavePolicy] is idempotent up to the order of the records:
    against drivers that report no failure, a second call with the same
    model returns nil as well, leaves the model alone and leaves the same
    records as the first, in the order in which its own [range] loops visit
    the maps. *)
Theorem SavePolicy_idempotent env env' a (m : Model) w :
  collection a ≠ None →
  drop_fault env = None →
  insert_fault env = None →
  (∀ n am, range_order env n am ≡ₚ map_to_list am) →
  drop_fault env' = None →
  insert_fault env' = None →
  (∀ n am, range_order env' n am ≡ₚ map_to_list am) →
  map_Forall (λ _ p, live (heap w) p) (m !!! "p") →
  map_Forall (λ _ p, live (heap w) p) (m !!! "g") →
  ∃ w1 w2,
    SavePolicy env a m w = Ok (None, w1) ∧
    SavePolicy env' a m w1 = Ok (None, w2) ∧
    heap w2 = heap w ∧
    records w1 = saved_lines env (heap w) m ∧
    records w2 = saved_lines env' (heap w) m ∧
    records w2 ≡ₚ records w1.
Proof.
  intros Hc Hd Hi Hr Hd' Hi' Hr' Hp Hg.
  exists (mkWorld (heap w) (Some (saved_lines env (heap w) m))),
         (mkWorld (heap w) (Some (saved_lines env' (heap w) m))).
  split_and!.
  - rewrite (SavePolicy_run env a Hc Hr m w Hd Hp Hg). by rewrite Hi.
  - rewrite (SavePolicy_run env' a Hc Hr' m
               (mkWorld (heap w) (Some (saved_lines env (heap w) m))) Hd' Hp Hg).
    by rewrite Hi'.
  - reflexivity.
  - reflexivity.
  - reflexivity.
  - change (saved_lines env' (heap w) m ≡ₚ saved_lines env (heap w) m).
    by rewrite (saved_lines_perm env' Hr'), (saved_lines_perm env Hr).
Qed.

(** X16.  When [DropCollection] fails with an error other than "ns not
    found", [dropTable] panics with that error and so does [SavePolicy],
    instead of returning it; this is so for every model, also one with nil
    assertions under ["p"] or ["g"], and whatever [Insert] would answer. *)
Theorem SavePolicy_drop_failure env a (m : Model) w e :
  collection a ≠ None →
  drop_fault env = Some e →
  e ≠ "ns not found" →
  dropTable env a w = Panic (PanicError e) ∧
  SavePolicy env a m w = Panic (PanicError e).
Proof.
  intros Hc Hf He.
  assert (Hdrop : dropTable env a w = Panic (PanicError e)).
  { rewrite dropTable_unfold. case_decide; [done|]. unfold DropCollection.
    destruct (collection a); [|done]. rewrite Hf. by case_decide. }
  split; [exact Hdrop|].
  unfold SavePolicy. by rewrite go_bind_unfold, Hdrop.
Qed.

(** X17.  [dropTable] can be repeated: without a failure of the driver it
    returns, leaves no record and leaves the model alone, and a second call
    returns as well and changes nothing. *)
Theorem dropTable_idempotent env a w :
  drop_fault env = None →
  collection a ≠ None →
  ∃ w',
    dropTable env a w = Ok (tt, w') ∧
    records w' = [] ∧
    heap w' = heap w ∧
    dropTable env a w' = Ok (tt, w').
Proof.
  intros Hf Hc.
  destruct (dropTable_ok env a w Hc Hf) as (w' & Hd & Hh & Hs).
  exists w'. split_and!; try done.
  - unfold records. by rewrite Hs.
  - rewrite dropTable_unfold. case_decide; [done|].
    unfold DropCollection. destruct (collection a); [|done].
    rewrite Hf, Hs. by case_decide.
Qed.

Lemma SavePolicy_returns_iff_sample :
  (∃ r w', SavePolicy quiet_env sample_adapter policy_model policy_world = Ok (r, w')) ↔
  map_Forall (λ _ p, live (heap policy_world) p) (policy_model !!! "p") ∧
  map_Forall (λ _ p, live (heap policy_world) p) (policy_model !!! "g").
Proof.
  apply (SavePolicy_returns_iff quiet_env sample_adapter).
  - discriminate.
  - intros n am. reflexivity.
  - reflexivity.
Defined.

Lemma SavePolicy_insert_failure_sample :
  ∃ w',
    SavePolicy broken_insert_env sample_adapter policy_model policy_world
    = Ok (Some "write failed", w') ∧
    records w' = take 1 (saved_lines broken_insert_env (heap policy_world) policy_model) ∧
    heap w' = heap policy_world.
Proof.
  apply (SavePolicy_insert_failure broken_insert_env sample_adapter).
  - discriminate.
  - intros n am. reflexivity.
  - reflexivity.
  - reflexivity.
  - apply (bool_decide_unpack _). vm_compute. exact I.
  - apply (bool_decide_unpack _). vm_compute. exact I.
Defined.

Lemma SavePolicy_idempotent_sample :
  ∃ w1 w2,
    SavePolicy quiet_env sample_adapter policy_model policy_world = Ok (None, w1) ∧
    SavePolicy reversed_env sample_adapter policy_model w1 = Ok (None, w2) ∧
    heap w2 = heap policy_world ∧
    records w1 = saved_lines quiet_env (heap policy_world) policy_model ∧
    records w2 = saved_lines reversed_env (heap policy_world) policy_model ∧
    records w2 ≡ₚ records w1.
Proof.
  apply (SavePolicy_idempotent quiet_env reversed_env sample_adapter).
  - discriminate.
  - reflexivity.
  - reflexivity.
  - intros n am. reflexivity.
  - reflexivity.
  - reflexivity.
  - intros n am. apply reverse_Permutation.
  - apply (bool_decide_unpack _). vm_compute. exact I.
  - apply (bool_decide_unpack _). vm_compute. exact I.
Defined.

Lemma SavePolicy_drop_failure_sample :
  dropTable broken_drop_env sample_adapter policy_world
  = Panic (PanicError "not authorized") ∧
  SavePolicy broken_drop_env sample_adapter nil_model policy_world
  = Panic (PanicError "not authorized").
Proof.
  apply (SavePolicy_drop_failure broken_drop_env sample_adapter).
  - discriminate.
  - reflexivity.
  - discriminate.
Defined.

Lemma dropTable_idempotent_sample :
  ∃ w',
    dropTable quiet_env sample_adapter policy_world = Ok (tt, w') ∧
    records w' = [] ∧
    heap w' = heap policy_world ∧
    dropTable quiet_env sample_adapter w' = Ok (tt, w').
Proof.
  apply (dropTable_idempotent quiet_env sample_adapter).
  - reflexivity.
  - discriminate.
Defined.

(** * Load, then save *)

Lemma NoDup_bind_inj {A B} (f : A → list B) (l : list A) x y z :
  NoDup (l ≫= f) → y ∈ l → z ∈ l → x ∈ f y → x ∈ f z → y = z.
Proof.
  induction l as [|a l IH]; intros Hnd Hy Hz Hxy Hxz; [by apply elem_of_nil in Hy|].
  rewrite bind_cons in Hnd. apply NoDup_app in Hnd as (_ & Hdisj & Hnd).
  apply elem_of_cons in Hy as [->|Hy]; apply elem_of_cons in Hz as [->|Hz].
  - done.
  - exfalso. apply (Hdisj x Hxy). apply list_elem_of_bind. eauto.
  - exfalso. apply (Hdisj x Hxz). apply list_elem_of_bind. eauto.
  - by apply IH.
Qed.

Lemma NoDup_bind_part {A B} (f : A → list B) (l : list A) y :
  NoDup (l ≫= f) → y ∈ l → NoDup (f y).
Proof.
  induction l as [|a l IH]; intros Hnd Hy; [by apply elem_of_nil in Hy|].
  rewrite bind_cons in Hnd. apply NoDup_app in Hnd as (Ha & _ & Hnd).
  apply elem_of_cons in Hy as [->|Hy]; [done|by apply IH].
Qed.

Lemma NoDup_snd_inj {A B} (l : list (A * B)) k1 k2 p :
  NoDup l.*2 → (k1, p) ∈ l → (k2, p) ∈ l → k1 = k2.
Proof.
  induction l as [|[k q] l IH]; intros Hnd H1 H2; [by apply elem_of_nil in H1|].
  rewrite fmap_cons in Hnd. apply NoDup_cons in Hnd as [Hq Hnd]. simpl in Hq.
  apply elem_of_cons in H1 as [H1|H1];
    apply elem_of_cons in H2 as [H2|H2]; simplify_eq.
  - done.
  - exfalso. apply Hq. apply (list_elem_of_fmap_2 snd _ _ H2).
  - exfalso. apply Hq. apply (list_elem_of_fmap_2 snd _ _ H1).
  - by apply IH.
Qed.

Lemma model_entries_pointers (m : Model) :
  (model_entries m).*2
  = map_to_list m ≫= (λ sa : string * gmap string ptr, (map_to_list sa.2).*2).
Proof.
  unfold model_entries. induction (map_to_list m) as [|sa l IH]; [done|].
  by rewrite !bind_cons, fmap_app, IH.
Qed.

Lemma section_entry (m : Model) s k p :
  (k, p) ∈ map_to_list (m !!! s) → (s, m !!! s) ∈ map_to_list m.
Proof.
  rewrite lookup_total_alt. destruct (m !! s) as [am|] eqn:Hs; simpl.
  - intros _. by apply elem_of_map_to_list.
  - intros H. apply elem_of_map_to_list in H. by rewrite lookup_empty in H.
Qed.

Lemma section_entry_in_model (m : Model) s k p :
  (k, p) ∈ map_to_list (m !!! s) → (k, p) ∈ model_entries m.
Proof.
  intros H. unfold model_entries. apply list_elem_of_bind.
  exists (s, m !!! s). split; [done|]. by apply (section_entry m s k p).
Qed.

(** In a model whose entries hold pointers of their own, a pointer tells
    the section and the key it is stored under. *)
Lemma pointer_section (m : Model) s1 k1 s2 k2 p :
  NoDup (model_entries m).*2 →
  (k1, p) ∈ map_to_list (m !!! s1) →
  (k2, p) ∈ map_to_list (m !!! s2) →
  s1 = s2 ∧ k1 = k2.
Proof.
  rewrite model_entries_pointers. intros Hnd H1 H2.
  assert (Heq : (s1, m !!! s1) = (s2, m !!! s2)).
  { apply (NoDup_bind_inj _ _ p _ _ Hnd).
    - by apply (section_entry m s1 k1 p).
    - by apply (section_entry m s2 k2 p).
    - apply (list_elem_of_fmap_2 snd _ _ H1).
    - apply (list_elem_of_fmap_2 snd _ _ H2). }
  injection Heq as -> Ham. split; [done|].
  apply (NoDup_snd_inj (map_to_list (m !!! s2)) k1 k2 p); try done.
  change (NoDup ((λ sa : string * gmap string ptr, (map_to_list sa.2).*2)
                   (s2, m !!! s2))).
  apply (NoDup_bind_part _ _ (s2, m !!! s2) Hnd).
  by apply (section_entry m s2 k2 p).
Qed.

Lemma target_entry (m : Model) d l :
  target m d = addr l →
  ∃ c rest, PType d = String c rest ∧
            (PType d, addr l) ∈ map_to_list (m !!! String c "").
Proof.
  unfold target. destruct (PType d) as [|c rest] eqn:Hp; [done|].
  intros H. exists c, rest. split; [done|].
  apply elem_of_map_to_list.
  rewrite (lookup_total_alt (m !!! String c "")) in H.
  destruct ((m !!! String c "") !! String c rest) as [q|]; simpl in H;
    [by subst q|done].
Qed.

(** The entries [SavePolicy] reads. *)
Lemma saved_rules_entries (h : Heap) (m : Model) :
  saved_rules h m
  = (map_to_list (m !!! "p") ++ map_to_list (m !!! "g")) ≫= entry_rules h.
Proof. unfold saved_rules. by rewrite bind_app. Qed.

Lemma saved_entries_NoDup (m : Model) :
  NoDup (model_entries m).*2 →
  NoDup (map_to_list (m !!! "p") ++ map_to_list (m !!! "g")).*2.
Proof.
  intros Hnd. rewrite fmap_app. apply NoDup_app.
  assert (Hsec : ∀ s, NoDup (map_to_list (m !!! s)).*2).
  { intros s. destruct (map_to_list (m !!! s)) as [|[k p] l] eqn:Hl;
      [apply NoDup_nil_2|]. rewrite <- Hl.
    rewrite model_entries_pointers in Hnd.
    change (NoDup ((λ sa : string * gmap string ptr, (map_to_list sa.2).*2)
                     (s, m !!! s))).
    apply (NoDup_bind_part _ _ (s, m !!! s) Hnd).
    apply (section_entry m s k p). rewrite Hl. apply elem_of_cons. by left. }
  split_and!; [apply Hsec| |apply Hsec].
  intros p Hp Hg.
  apply list_elem_of_fmap in Hp as ([k1 p1] & -> & Hp).
  apply list_elem_of_fmap in Hg as ([k2 p2] & Heq & Hg). simpl in Heq. subst p2.
  by destruct (pointer_section m "p" k1 "g" k2 p1 Hnd Hp Hg) as [? _].
Qed.

Lemma saved_entries_target (m : Model) d l :
  NoDup (model_entries m).*2 →
  target m d = addr l →
  addr l ∈ (map_to_list (m !!! "p") ++ map_to_list (m !!! "g")).*2 ↔ kept d.
Proof.
  intros Hnd Ht. destruct (target_entry m d l Ht) as (c & rest & Hp & Hin).
  unfold kept. rewrite Hp. rewrite fmap_app, elem_of_app. split.
  - intros [H|H]; apply list_elem_of_fmap in H as ([k p] & Heq & H);
      simpl in Heq; subst p;
      destruct (pointer_section m _ _ _ _ _ Hnd Hin H) as [[= ->] _]; auto.
  - intros [->| ->]; [left|right]; apply (list_elem_of_fmap_2 snd _ _ Hin).
Qed.

Lemma saved_entries_key (m : Model) d l :
  NoDup (model_entries m).*2 →
  target m d = addr l →
  addr l ∈ (map_to_list (m !!! "p") ++ map_to_list (m !!! "g")).*2 →
  (PType d, addr l) ∈ map_to_list (m !!! "p") ++ map_to_list (m !!! "g").
Proof.
  intros Hnd Ht Hin. apply (saved_entries_target m d l Hnd Ht) in Hin.
  destruct (target_entry m d l Ht) as (c & rest & Hp & He).
  unfold kept in Hin. rewrite Hp in Hin. apply elem_of_app.
  destruct Hin as [->| ->]; auto.
Qed.

Lemma filter_ext_Forall {A} (P Q : A → Prop)
    `{!∀ x, Decision (P x)} `{!∀ x, Decision (Q x)} (l : list A) :
  Forall (λ x, P x ↔ Q x) l → filter P l = filter Q l.
Proof.
  induction 1 as [|x l Hx Hl IH]; [done|].
  rewrite !filter_cons, IH. destruct Hx as [HPQ HQP].
  destruct (decide (P x)), (decide (Q x)); [done|exfalso; auto..|done].
Qed.

(** What the loading loop adds to a part of the model: one pair per
    delivered record filed through a pointer of that part. *)
Lemma load_loop_part (m : Model) (es : list (string * ptr)) docs w u w' :
  NoDup es.*2 →
  (∀ d l, target m d = addr l → addr l ∈ es.*2 → (PType d, addr l) ∈ es) →
  load_loop docs m w = Ok (u, w') →
  es ≫= entry_rules (heap w')
  ≡ₚ (es ≫= entry_rules (heap w))
     ++ (record_rule <$> filter (λ d, target m d ∈ es.*2) docs).
Proof.
  intros Hnd Hkey. revert w. induction docs as [|d docs IH]; intros w H.
  - simpl in H. injection H as _ <-. by rewrite filter_nil, app_nil_r.
  - simpl in H. apply go_bind_inv in H as ([] & w1 & Hstep & Hrest).
    apply loadPolicyLine_inv in Hstep as (c & rest & l0 & a0 & Hp & Hs & Ha & ->).
    pose proof (target_filed d m c rest l0 Hp Hs) as Ht.
    rewrite (IH _ Hrest). simpl.
    destruct (decide (addr l0 ∈ es.*2)) as [Hin|Hnin].
    + rewrite filter_cons_True by (by rewrite Ht).
      rewrite (bind_entry_rules_filed (heap w) l0 a0 (lineTokens d) (PType d))
        by eauto.
      by rewrite <- app_assoc.
    + rewrite filter_cons_False by (by rewrite Ht).
      by rewrite bind_entry_rules_insert_fresh.
Qed.

Section load_save.
Context (env : Env) (a : Adapter).
Hypothesis bound : collection a ≠ None.
Hypothesis no_drop_fault : drop_fault env = None.
Hypothesis no_insert_fault : insert_fault env = None.
Hypothesis no_cursor_fault : cursor_fault env = None.
Hypothesis range_perm : ∀ n am, range_order env n am ≡ₚ map_to_list am.
Hypothesis cursor_perm : ∀ docs, cursor_order env docs ≡ₚ docs.

(** X18.  Loading a collection into a fresh empty model that has an
    assertion for every stored record, and saving that model, writes back
    the stored records whose ptype begins with [p] or [g], each one with
    the slots after its first empty field cleared, and no other record:
    the records of any other ptype are lost. *)
Theorem LoadPolicy_SavePolicy_normalizes (m : Model) w :
  fresh_empty (heap w) m →
  Forall (accepted m (heap w)) (records w) →
  ∃ w1 w2,
    LoadPolicy env a m w = Ok (None, w1) ∧
    SavePolicy env a m w1 = Ok (None, w2) ∧
    records w2 ≡ₚ normalized <$> filter kept (records w).
Proof.
  intros [Hnd Hempty] Hacc.
  assert (Hacc' : Forall (accepted m (heap w)) (cursor_order env (records w)))
    by (by rewrite cursor_perm).
  destruct (LoadPolicy_ok env a m w bound no_cursor_fault Hnd Hacc')
    as (w1 & Hload & _ & _).
  pose proof (LoadPolicy_dom env a m w _ _ Hload) as Hdom.
  set (es := map_to_list (m !!! "p") ++ map_to_list (m !!! "g")).
  assert (Hes : Forall (λ e, points_to_empty (heap w) e.2) es).
  { rewrite Forall_forall in Hempty. apply Forall_forall. intros [k p] Hin.
    apply Hempty. apply elem_of_app in Hin as [Hin|Hin];
      by eapply section_entry_in_model. }
  assert (Hlive : ∀ s, s = "p" ∨ s = "g" →
            map_Forall (λ _ p, live (heap w1) p) (m !!! s)).
  { intros s Hs k p Hk. apply elem_of_map_to_list in Hk.
    assert (Hin : (k, p) ∈ es)
      by (apply elem_of_app; destruct Hs as [-> | ->]; auto).
    rewrite Forall_forall in Hes. specialize (Hes _ Hin). simpl in Hes.
    destruct p as [|l]; [done|]. simpl.
    apply elem_of_dom. rewrite Hdom. apply elem_of_dom. by rewrite Hes. }
  exists w1, (mkWorld (heap w1) (Some (saved_lines env (heap w1) m))).
  split_and!.
  - exact Hload.
  - apply SavePolicy_ok; auto.
  - change (saved_lines env (heap w1) m
            ≡ₚ normalized <$> filter kept (records w)).
    rewrite saved_lines_perm by done. rewrite saved_rules_entries. fold es.
    rewrite LoadPolicy_unfold in Hload. destruct (collection a); [|done].
    unfold delivered in Hload. rewrite no_cursor_fault in Hload.
    destruct (load_loop (cursor_order env (records w)) m w)
      as [[u w1']|] eqn:Hrun; [|done].
    injection Hload as ->.
    rewrite (load_loop_part m es _ w u w1
               (saved_entries_NoDup m Hnd)
               (λ d l, saved_entries_key m d l Hnd) Hrun).
    rewrite (bind_entry_rules_empty _ _ Hes). simpl.
    rewrite (filter_ext_Forall _ kept (cursor_order env (records w))).
    + rewrite cursor_perm. unfold normalized.
      by rewrite <- list_fmap_compose.
    + eapply Forall_impl; [exact Hacc'|]. intros d Hd.
      apply accepted_target in Hd as (l & Ht & _). rewrite Ht.
      by apply saved_entries_target.
Qed.

End load_save.

Lemma LoadPolicy_SavePolicy_normalizes_sample :
  ∃ w1 w2,
    LoadPolicy quiet_env sample_adapter fresh_model stored_world = Ok (None, w1) ∧
    SavePolicy quiet_env sample_adapter fresh_model w1 = Ok (None, w2) ∧
    records w2 ≡ₚ normalized <$> filter kept (records stored_world).
Proof.
  apply (LoadPolicy_SavePolicy_normalizes quiet_env sample_adapter).
  - discriminate.
  - reflexivity.
  - reflexivity.
  - reflexivity.
  - intros n am. reflexivity.
  - intros docs. reflexivity.
  - apply (bool_decide_unpack _). vm_compute. exact I.
  - rewrite Forall_forall. intros d Hd. apply accepted_target.
    vm_compute in Hd.
    repeat (apply elem_of_cons in Hd as [->|Hd];
            [eexists; split; [vm_compute; reflexivity|vm_compute; eauto]|]).
    by apply elem_of_nil in Hd.
Defined.

(** * Opening the adapter *)

Lemma createIndice_run d a coll :
  collection a = Some coll →
  createIndice d a = ensure_all d coll index_keys.
Proof.
  intros Hc. unfold createIndice, index_keys. rewrite Hc. simpl.
  destruct (index_fault d coll ["ptype"]); simpl; [done|].
  destruct (index_fault d coll ["v0"]); simpl; [done|].
  destruct (index_fault d coll ["v1"]); simpl; [done|].
  destruct (index_fault d coll ["v2"]); simpl; [done|].
  destruct (index_fault d coll ["v3"]); simpl; [done|].
  destruct (index_fault d coll ["v4"]); simpl; [done|].
  destruct (index_fault d coll ["v5"]); simpl; done.
Qed.

Lemma ensure_all_find d coll keys :
  match list_find (λ key, is_Some (index_fault d coll key)) keys with
  | None => ensure_all d coll keys = (Ensured coll <$> keys, Ok tt)
  | Some (i, key) =>
      ∃ e, index_fault d coll key = Some e ∧
           ensure_all d coll keys
           = (Ensured coll <$> take (S i) keys, Panic (PanicError e))
  end.
Proof.
  induction keys as [|key keys IH]; [done|]. simpl.
  destruct (index_fault d coll key) as [e|] eqn:He.
  - rewrite decide_True by eauto. exists e. by rewrite take_0.
  - rewrite decide_False by (by intros [? ?]).
    destruct (list_find _ keys) as [[i key']|]; simpl.
    + destruct IH as (e & He' & ->). by exists e.
    + by rewrite IH.
Qed.

Lemma ensure_all_ok_iff d coll keys log u :
  ensure_all d coll keys = (log, Ok u) ↔
  Forall (λ key, index_fault d coll key = None) keys ∧
  log = Ensured coll <$> keys.
Proof.
  revert log. induction keys as [|key keys IH]; intros log; simpl.
  - destruct u. split; [intros [= <-]|intros [_ ->]]; done.
  - destruct (index_fault d coll key) as [e|] eqn:He.
    + split; [done|]. intros [H _]. apply Forall_cons in H as [H _]. congruence.
    + destruct (ensure_all d coll keys) as [log' r] eqn:Hrun. split.
      * intros [= <- ->]. destruct (IH log') as [IH1 _].
        destruct (IH1 eq_refl) as [Hall ->].
        split; [by apply Forall_cons|done].
      * intros [H ->]. apply Forall_cons in H as [_ H].
        destruct (IH (Ensured coll <$> keys)) as [_ IH2].
        specialize (IH2 (conj H eq_refl)). by injection IH2 as -> ->.
Qed.

(** X19.  [createIndice] asks for one index per key, on [ptype] and on
    [v0] to [v5] in this order, and stops at the first refusal: it panics
    with that error and asks for no further index; it returns only when all
    seven were granted. *)
Theorem createIndice_stops_at_first_failure d a coll :
  collection a = Some coll →
  match list_find (λ key, is_Some (index_fault d coll key)) index_keys with
  | None => createIndice d a = (Ensured coll <$> index_keys, Ok tt)
  | Some (i, key) =>
      ∃ e, index_fault d coll key = Some e ∧
           createIndice d a
           = (Ensured coll <$> take (S i) index_keys, Panic (PanicError e))
  end.
Proof.
  intros Hc. rewrite (createIndice_run d a coll Hc). apply ensure_all_find.
Qed.

Lemma createIndice_stops_at_first_failure_sample :
  ∃ e, index_fault refusing_dialer "casbin.casbin_rule" ["v2"] = Some e ∧
       createIndice refusing_dialer (mkAdapter "mongodb://localhost" (Some "casbin.casbin_rule"))
       = (Ensured "casbin.casbin_rule" <$> take 4 index_keys, Panic (PanicError e)).
Proof.
  apply (createIndice_stops_at_first_failure refusing_dialer
           (mkAdapter "mongodb://localhost" (Some "casbin.casbin_rule"))
           "casbin.casbin_rule").
  reflexivity.
Defined.

Lemma open_unfold d a :
  open d a
  = match parse_url d (url a) with
    | inr err => ([], Panic (PanicError err))
    | inl dI =>
        let dI' := mkDialInfo (Addrs dI) (database_of dI) in
        match dial_fault d dI' with
        | Some err => ([Dialed dI'], Panic (PanicError err))
        | None =>
            let coll := DB_C (database_of dI) "casbin_rule" in
            match ensure_all d coll index_keys with
            | (log, Ok _) =>
                (Dialed dI' :: log, Ok (dI', mkAdapter (url a) (Some coll)))
            | (log, Panic p) => (Dialed dI' :: log, Panic p)
            end
        end
    end.
Proof.
  unfold open. destruct (parse_url d (url a)) as [dI|err]; [|done].
  assert (HdI : (if decide (Database dI = "") then set_Database "casbin" dI else dI)
                = mkDialInfo (Addrs dI) (database_of dI)).
  { unfold database_of, set_Database. case_decide; [done|]. by destruct dI. }
  rewrite HdI. cbn -[createIndice ensure_all index_keys].
  destruct (dial_fault d _) as [err|]; [done|].
  cbn -[createIndice ensure_all index_keys].
  rewrite (createIndice_run d _ (DB_C (database_of dI) "casbin_rule")) by done.
  destruct (ensure_all d _ index_keys) as [log [[]|p]]; [|done].
  cbn. by rewrite app_nil_r.
Qed.

(** X20.  [NewAdapter] returns exactly when the URL parses, the dial
    succeeds and the seven indexes are granted.  The adapter it returns
    keeps the URL and holds the collection [casbin_rule] of the database
    named in the URL, or of [casbin] when the URL names none; the driver
    was asked for one dial and then the seven indexes, in order. *)
Theorem NewAdapter_returns_iff d url log s a :
  NewAdapter d url = (log, Ok (s, a)) ↔
  ∃ dI,
    parse_url d url = inl dI ∧
    dial_fault d (mkDialInfo (Addrs dI) (database_of dI)) = None ∧
    Forall (λ key, index_fault d (DB_C (database_of dI) "casbin_rule") key = None)
      index_keys ∧
    s = mkDialInfo (Addrs dI) (database_of dI) ∧
    a = mkAdapter url (Some (DB_C (database_of dI) "casbin_rule")) ∧
    log = Dialed (mkDialInfo (Addrs dI) (database_of dI))
          :: (Ensured (DB_C (database_of dI) "casbin_rule") <$> index_keys).
Proof.
  unfold NewAdapter. cbn -[open].
  assert (Hret : ∀ m : Logged (DialInfo * Adapter), (sa ← m; mret sa) = m).
  { intros [l [[? ?]|?]]; simpl; [by rewrite app_nil_r|done]. }
  rewrite Hret, open_unfold. cbn -[ensure_all index_keys]. split.
  - intros H. destruct (parse_url d url) as [dI|err]; [|done]. exists dI.
    destruct (dial_fault d _) as [err|]; [done|].
    destruct (ensure_all d _ index_keys) as [log' [u|p]] eqn:Hrun; [|done].
    apply ensure_all_ok_iff in Hrun as [Hall ->]. by injection H as <- <- <-.
  - intros (dI & -> & -> & Hall & -> & -> & ->).
    destruct (ensure_all d _ index_keys) as [log' r] eqn:Hrun.
    assert (Hrun' : (log', r)
                    = (Ensured (DB_C (database_of dI) "casbin_rule") <$> index_keys, Ok tt)).
    { rewrite <- Hrun. by apply ensure_all_ok_iff. }
    by injection Hrun' as -> ->.
Qed.

(** X21.  [NewAdapter] fails fast: on a URL that does not parse it panics
    without any driver call, and when the dial fails it panics after the
    dial without asking for an index. *)
Theorem NewAdapter_fails_fast d url :
  (∀ err, parse_url d url = inr err →
     NewAdapter d url = ([], Panic (PanicError err))) ∧
  (∀ dI err,
     parse_url d url = inl dI →
     dial_fault d (mkDialInfo (Addrs dI) (database_of dI)) = Some err →
     NewAdapter d url
     = ([Dialed (mkDialInfo (Addrs dI) (database_of dI))], Panic (PanicError err))).
Proof.
  unfold NewAdapter. cbn -[open]. split.
  - intros err Hp. rewrite open_unfold. cbn -[ensure_all index_keys].
    by rewrite Hp.
  - intros dI err Hp Hd. rewrite open_unfold. cbn -[ensure_all index_keys].
    by rewrite Hp, Hd.
Qed.

Lemma NewAdapter_bound d target_url log s a :
  NewAdapter d target_url = (log, Ok (s, a)) →
  url a = target_url ∧ collection a ≠ None.
Proof.
  unfold NewAdapter. cbn -[open].
  assert (Hret : ∀ m : Logged (DialInfo * Adapter), (sa ← m; mret sa) = m).
  { intros [l [[? ?]|?]]; simpl; [by rewrite app_nil_r|done]. }
  rewrite Hret, open_unfold. cbn -[ensure_all index_keys].
  destruct (parse_url d target_url) as [dI|err]; [|done].
  destruct (dial_fault d _) as [err|]; [done|].
  destruct (ensure_all d _ index_keys) as [log' [u|p]]; [|done].
  by intros [= _ _ <-].
Qed.

(** X22.  The first save through a new adapter succeeds although the
    collection does not exist yet: the adapter [NewAdapter] returns holds a
    collection, the failed drop of the missing namespace is passed over, and
    the collection is created with one record per rule of ["p"] and ["g"]. *)
Theorem NewAdapter_first_SavePolicy d url log s a env (m : Model) w :
  NewAdapter d url = (log, Ok (s, a)) →
  store w = None →
  drop_fault env = None →
  insert_fault env = None →
  (∀ n am, range_order env n am ≡ₚ map_to_list am) →
  map_Forall (λ _ p, live (heap w) p) (m !!! "p") →
  map_Forall (λ _ p, live (heap w) p) (m !!! "g") →
  collection a ≠ None ∧
  dropTable env a w = Ok (tt, w) ∧
  SavePolicy env a m w
  = Ok (None, mkWorld (heap w) (Some (saved_lines env (heap w) m))) ∧
  saved_lines env (heap w) m ≡ₚ rule_record <$> saved_rules (heap w) m.
Proof.
  intros Hnew Hstore Hdrop Hins Hrange Hp Hg.
  apply NewAdapter_bound in Hnew as [_ Hc].
  split_and!.
  - exact Hc.
  - rewrite dropTable_unfold. case_decide; [done|]. unfold DropCollection.
    destruct (collection a); [|done]. rewrite Hdrop, Hstore. by case_decide.
  - by apply SavePolicy_ok.
  - by apply saved_lines_perm.
Qed.

Lemma NewAdapter_first_SavePolicy_sample :
  collection (mkAdapter "mongodb://localhost:27017" (Some "casbin.casbin_rule")) ≠ None ∧
  dropTable quiet_env
    (mkAdapter "mongodb://localhost:27017" (Some "casbin.casbin_rule"))
    (mkWorld (heap policy_world) None)
  = Ok (tt, mkWorld (heap policy_world) None) ∧
  SavePolicy quiet_env
    (mkAdapter "mongodb://localhost:27017" (Some "casbin.casbin_rule"))
    policy_model (mkWorld (heap policy_world) None)
  = Ok (None, mkWorld (heap policy_world)
                (Some (saved_lines quiet_env (heap policy_world) policy_model))) ∧
  saved_lines quiet_env (heap policy_world) policy_model
  ≡ₚ rule_record <$> saved_rules (heap policy_world) policy_model.
Proof.
  apply (NewAdapter_first_SavePolicy sample_dialer "mongodb://localhost:27017"
           (Dialed (mkDialInfo ["localhost:27017"] "casbin")
            :: (Ensured "casbin.casbin_rule" <$> index_keys))
           (mkDialInfo ["localhost:27017"] "casbin")
           (mkAdapter "mongodb://localhost:27017" (Some "casbin.casbin_rule"))
           quiet_env policy_model (mkWorld (heap policy_world) None)).
  - vm_compute. reflexivity.
  - reflexivity.
  - reflexivity.
  - reflexivity.
  - intros n am. reflexivity.
  - apply (bool_decide_unpack _). vm_compute. exact I.
  - apply (bool_decide_unpack _). vm_compute. exact I.
Defined.
